(** * prosemirror-mentions: trigger matcher, debounce, suggestion plugin and
      node specs, embedded from [src/mentionPlugin.js] and the node-spec file.

    The first half of the file is the embedding, the second half the
    properties proved about it. *)

From Stdlib Require Import NArith ZArith List Bool Ascii String Lia.
From stdpp Require Import gmap strings list.

Local Open Scope nat_scope.

(* ===================================================================== *)
(** * JavaScript strings *)
(* ===================================================================== *)

(** A JavaScript string is a sequence of UTF-16 code units; [length] counts
    code units, as [String.prototype.length] does. *)
Abbreviation jsstring := (list N).

(** Code units of an ASCII literal, to write inputs readably. *)
Definition u16 (s : string) : jsstring :=
  map N_of_ascii (list_ascii_of_string s).

(** [s.startsWith(" ")] *)
Definition startsWith_space (s : jsstring) : bool :=
  match s with
  | c :: _ => N.eqb c 32
  | [] => false
  end.

(** [s.substring(1, s.length)] *)
Definition substring1 (s : jsstring) : jsstring := drop 1 s.

(* ===================================================================== *)
(** * Regular expressions of the JavaScript runtime *)
(* ===================================================================== *)

Module Regexp.

(** The character classes that occur in the patterns of [getRegexp]. *)

Definition in_range (lo hi c : N) : bool := N.leb lo c && N.leb c hi.

(** [\w] without the unicode and ignoreCase flags: [A-Za-z0-9_]. *)
Definition is_word (c : N) : bool :=
  in_range 48 57 c || in_range 65 90 c || N.eqb c 95 || in_range 97 122 c.

(** [\s]: the WhiteSpace and LineTerminator code points of ECMAScript. *)
Definition is_space (c : N) : bool :=
  in_range 9 13 c || N.eqb c 32 || N.eqb c 160 || N.eqb c 5760
  || in_range 8192 8202 c || N.eqb c 8232 || N.eqb c 8233 || N.eqb c 8239
  || N.eqb c 8287 || N.eqb c 12288 || N.eqb c 65279.

(** [[\w-\+]]: a class escape cannot bound a range, so the hyphen stands for
    itself; the class is the word characters, [-] and [+]. *)
Definition is_mention_char (c : N) : bool :=
  is_word c || N.eqb c 45 || N.eqb c 43.

(** [[\w-]]: the word characters and [-]. *)
Definition is_tag_char (c : N) : bool :=
  is_word c || N.eqb c 45.

(** Pattern syntax, as far as [getRegexp] uses it. *)
Inductive regex : Type :=
| Bol                                  (* ^ *)
| Eol                                  (* $ *)
| Lit (w : jsstring)                   (* literal characters *)
| Cls (p : N -> bool)                  (* class or class escape *)
| Seq (r1 r2 : regex)                  (* r1 r2 *)
| Alt (r1 r2 : regex)                  (* r1 | r2 *)
| Star (r : regex)                     (* r*, greedy *)
| Plus (r : regex)                     (* r+, greedy *)
| Opt (r : regex)                      (* r?, greedy *)
| Grp (n : nat) (r : regex).           (* n-th capturing group *)

(** Matcher state: the index reached in the input, the input from there on,
    and the captures made so far (latest first). *)
Record mstate : Type := MState {
  pos : nat;
  rest : jsstring;
  caps : list (nat * jsstring)
}.

Definition advance (n : nat) (s : mstate) : mstate :=
  {| pos := pos s + n; rest := drop n (rest s); caps := caps s |}.

Definition capture (n : nat) (s0 s1 : mstate) : mstate :=
  {| pos := pos s1; rest := rest s1;
     caps := (n, take (pos s1 - pos s0) (rest s0)) :: caps s1 |}.

Fixpoint is_prefix (w l : jsstring) : bool :=
  match w, l with
  | [], _ => true
  | a :: w', b :: l' => N.eqb a b && is_prefix w' l'
  | _ :: _, [] => false
  end.

(** Did the atom of a quantifier consume input?  An iteration that matches
    the empty string is rejected. *)
Definition progress (s s' : mstate) : bool := pos s <? pos s'.

(** The backtracking matcher as a list of successes: [run r s] lists the
    states in which [r] can end when started in [s], in the order in which
    backtracking tries them.  The first one that lets the rest of the
    pattern succeed is the one the runtime takes. *)
Fixpoint star_loop (step : mstate -> list mstate) (fuel : nat) (s : mstate)
  : list mstate :=
  match fuel with
  | O => [s]
  | S fuel' =>
      flat_map (star_loop step fuel') (List.filter (progress s) (step s)) ++ [s]
  end.

Fixpoint run (r : regex) (s : mstate) : list mstate :=
  match r with
  | Bol => if pos s =? 0 then [s] else []
  | Eol => match rest s with [] => [s] | _ :: _ => [] end
  | Lit w => if is_prefix w (rest s) then [advance (length w) s] else []
  | Cls p =>
      match rest s with
      | c :: _ => if p c then [advance 1 s] else []
      | [] => []
      end
  | Seq r1 r2 => flat_map (run r2) (run r1 s)
  | Alt r1 r2 => run r1 s ++ run r2 s
  | Star r1 => star_loop (run r1) (S (length (rest s))) s
  | Plus r1 =>
      flat_map (fun s1 => star_loop (run r1) (S (length (rest s1))) s1)
               (run r1 s)
  | Opt r1 => List.filter (progress s) (run r1 s) ++ [s]
  | Grp n r1 => map (capture n s) (run r1 s)
  end.

(** The array [RegExp.prototype.exec] returns: [index], element 0 and the
    captures; a group that did not take part reads [undefined] ([None]). *)
Record match_array : Type := MatchArray {
  index : nat;
  whole : jsstring;
  groups : list (nat * jsstring)
}.

Definition group (n : nat) (m : match_array) : option jsstring :=
  snd <$> List.find (fun g => fst g =? n) (groups m).

(** [exec] for a pattern without the global and sticky flags: try every
    start index from [i] on, the end of the input included. *)
Fixpoint search (r : regex) (i : nat) (suffix : jsstring)
  : option match_array :=
  match run r {| pos := i; rest := suffix; caps := [] |} with
  | s' :: _ =>
      Some {| index := i; whole := take (pos s' - i) suffix; groups := caps s' |}
  | [] =>
      match suffix with
      | [] => None
      | _ :: tl => search r (S i) tl
      end
  end.

(** [text.match(regex)] for such a pattern; [None] is [null]. *)
Definition String_match (text : jsstring) (r : regex) : option match_array :=
  search r 0 text.

End Regexp.

Import Regexp.

(* ===================================================================== *)
(** * [getRegexp] and [getMatch] *)
(* ===================================================================== *)

(** The options of the plugin that the matcher reads.  A trigger is spliced
    into the pattern source; the embedding reads it as the literal it
    denotes when it holds no pattern metacharacter (section 7 of the
    specification leaves other triggers to the caller). *)
Record TriggerConfig : Type := {
  mentionTrigger : jsstring;
  hashtagTrigger : jsstring;
  allowSpace : bool;
  requireText : bool
}.

Record regexps : Type := { re_mention : regex; re_tag : regex }.

(** [getRegexp]: the two patterns, for triggers that hold no pattern
    metacharacter; such a trigger stands for itself in the pattern source
    into which the code splices it. *)
Definition getRegexp (mentionTrigger hashtagTrigger : jsstring)
    (allowSpace requireText : bool) : regexps :=
  let textOperator := if requireText then Plus else Star in
  let mention :=
    if allowSpace
    then Seq (Grp 1 (Alt Bol (Cls is_space)))
          (Seq (Lit mentionTrigger)
            (Seq (Grp 2 (Seq (textOperator (Cls is_mention_char))
                          (Seq (Opt (Cls is_space))
                               (Star (Cls is_mention_char)))))
                 Eol))
    else Seq (Grp 1 (Alt Bol (Cls is_space)))
          (Seq (Lit mentionTrigger)
            (Seq (Grp 2 (textOperator (Cls is_mention_char)))
                 Eol)) in
  let tag :=
    Seq (Grp 1 (Alt Bol (Cls is_space)))
      (Seq (Lit hashtagTrigger)
        (Seq (Grp 2 (Plus (Cls is_tag_char)))
             Eol)) in
  {| re_mention := mention; re_tag := tag |}.

(** What [getMatch] reads from the resolved position: the offset of the start
    of the parent node, [$position.start()], and the text of the parent up to
    the cursor, [doc.textBetween($position.before(), $position.pos, "\n",
    "\0")], in which a leaf node reads as one NUL. *)
Record ResolvedPos : Type := {
  rp_start : Z;
  rp_text : jsstring
}.

(** The [type] of a match or of the plugin state: the strings ["mention"] and
    ["tag"], and the empty string of [getNewState]. *)
Inductive token_type : Type := type_none | type_mention | type_tag.

Record Range : Type := { from : Z; to : Z }.

Record MatchResult : Type := {
  m_range : Range;
  m_queryText : option jsstring;     (* match[2]; [None] is [undefined] *)
  m_type : token_type
}.

Definition getMatch (position : ResolvedPos) (opts : TriggerConfig)
  : option MatchResult :=
  let text := rp_text position in
  let regex := getRegexp (mentionTrigger opts) (hashtagTrigger opts)
                         (allowSpace opts) (requireText opts) in
  let mentionMatch := String_match text (re_mention regex) in
  let tagMatch := String_match text (re_tag regex) in
  let match_ := match mentionMatch with Some m => Some m | None => tagMatch end in
  let type :=
    match mentionMatch, tagMatch with
    | Some _, _ => type_mention
    | None, Some _ => type_tag
    | None, None => type_none
    end in
  match match_ with
  | Some m =>
      let index' := if startsWith_space (whole m) then index m + 1 else index m in
      let whole' := if startsWith_space (whole m) then substring1 (whole m)
                    else whole m in
      let from_ := (rp_start position + Z.of_nat index')%Z in
      let to_ := (from_ + Z.of_nat (length whole'))%Z in
      Some {| m_range := {| from := from_; to := to_ |};
              m_queryText := group 2 m;
              m_type := type |}
  | None => None
  end.


(* ===================================================================== *)
(** * Timers of the JavaScript runtime and [debounce] *)
(* ===================================================================== *)

Module Timers.
Section Timers.
Context {Task : Type}.

(** A pending [setTimeout]: its id, the time at which it is due (in
    milliseconds) and the callback. *)
Record timer : Type := { t_id : nat; t_due : nat; t_task : Task }.

(** The runtime's clock, the next fresh timer id and the pending timers in
    the order in which they were set. *)
Record runtime : Type := {
  now : nat;
  next_id : nat;
  pending : list timer
}.

Definition init : runtime := {| now := 0; next_id := 1; pending := [] |}.

(** [setTimeout(task, timeout)] returns the id of the new timer. *)
Definition setTimeout (task : Task) (timeout : nat) (rt : runtime)
  : nat * runtime :=
  (next_id rt,
   {| now := now rt;
      next_id := S (next_id rt);
      pending := pending rt ++
                 [{| t_id := next_id rt; t_due := now rt + timeout;
                     t_task := task |}] |}).

(** [clearTimeout(id)]; [None] is [null], for which nothing happens, as for
    an id that is not pending. *)
Definition clearTimeout (id : option nat) (rt : runtime) : runtime :=
  match id with
  | None => rt
  | Some i =>
      {| now := now rt; next_id := next_id rt;
         pending := List.filter (fun t => negb (t_id t =? i)) (pending rt) |}
  end.

(** Timers fire in the order of their due times, and in the order in which
    they were set when due together. *)
Fixpoint insert_by_due (t : timer) (l : list timer) : list timer :=
  match l with
  | [] => [t]
  | t' :: l' =>
      if t_due t <? t_due t' then t :: l else t' :: insert_by_due t l'
  end.

Definition by_due (l : list timer) : list timer :=
  fold_left (fun acc t => insert_by_due t acc) l [].

(** [dt] milliseconds pass in which the event loop is free to run timers:
    those due by then fire and leave the pending list. *)
Definition elapse (dt : nat) (rt : runtime) : list timer * runtime :=
  let t := now rt + dt in
  (by_due (List.filter (fun tm => t_due tm <=? t) (pending rt)),
   {| now := t; next_id := next_id rt;
      pending := List.filter (fun tm => negb (t_due tm <=? t)) (pending rt) |}).
End Timers.
Arguments timer : clear implicits.
Arguments runtime : clear implicits.
End Timers.

(** The callback [debounce] hands to [setTimeout]: it applies [func] to
    [context], with no arguments of its own. *)
Record timer_callback (Func Ctx : Type) : Type := {
  cb_func : Func;
  cb_context : Ctx
}.
Arguments cb_func {Func Ctx} _.
Arguments cb_context {Func Ctx} _.

(** The module-level closure of [debounce]: its one [timeoutId], next to the
    runtime whose timers it sets and clears. *)
Record debounce_env (Func Ctx : Type) : Type := {
  timeoutId : option nat;
  timers : Timers.runtime (timer_callback Func Ctx)
}.
Arguments timeoutId {Func Ctx} _.
Arguments timers {Func Ctx} _.

(** [debounce(func, timeout, context)]: the pending timer is cleared, a new
    one is set and its id returned.  [context] stands for [context || this]. *)
Definition debounce {Func Ctx : Type} (func : Func) (timeout : nat)
    (context : Ctx) (e : debounce_env Func Ctx) : nat * debounce_env Func Ctx :=
  let rt1 := Timers.clearTimeout (timeoutId e) (timers e) in
  let '(id, rt2) :=
    Timers.setTimeout {| cb_func := func; cb_context := context |} timeout rt1 in
  (id, {| timeoutId := Some id; timers := rt2 |}).

(** A run of the event loop around [debounce]: calls to [debounce] and
    stretches of time in between, with the callbacks that ran, in order. *)
Inductive debounce_step (Func : Type) : Type :=
| Call (func : Func) (timeout : nat)
| Wait (dt : nat).
Arguments Call {Func} _ _.
Arguments Wait {Func} _.

Definition debounce_run1 {Func Ctx : Type} (context : Ctx)
    (st : debounce_step Func)
    (acc : list (Timers.timer (timer_callback Func Ctx)) * debounce_env Func Ctx)
  : list (Timers.timer (timer_callback Func Ctx)) * debounce_env Func Ctx :=
  let '(ran, e) := acc in
  match st with
  | Call func timeout => (ran, snd (debounce func timeout context e))
  | Wait dt =>
      let '(fired, rt) := Timers.elapse dt (timers e) in
      (ran ++ fired, {| timeoutId := timeoutId e; timers := rt |})
  end.

Definition debounce_run {Func Ctx : Type} (context : Ctx)
    (steps : list (debounce_step Func))
    (acc : list (Timers.timer (timer_callback Func Ctx)) * debounce_env Func Ctx)
  : list (Timers.timer (timer_callback Func Ctx)) * debounce_env Func Ctx :=
  fold_left (fun a st => debounce_run1 context st a) steps acc.

Definition debounce_init {Func Ctx : Type} : debounce_env Func Ctx :=
  {| timeoutId := None; timers := Timers.init |}.

(* ===================================================================== *)
(** * The suggestion plugin *)
(* ===================================================================== *)

(** The plugin state; [text] holds [match[2]], which the language allows to
    be [undefined] ([None]). *)
Record SuggestionState : Type := {
  active : bool;
  range : Range;
  type : token_type;
  text : option jsstring
}.

Definition getNewState : SuggestionState :=
  {| active := false;
     range := {| from := 0; to := 0 |};
     type := type_none;
     text := Some [] |}.

(** [!state.text]: [undefined] and the empty string are falsy. *)
Definition falsy_text (t : option jsstring) : bool :=
  match t with
  | None | Some [] => true
  | Some (_ :: _) => false
  end.

(** The selection of a transaction: [from], [to] and [$from]. *)
Record Selection : Type := {
  sel_from : Z;
  sel_to : Z;
  sel_rfrom : ResolvedPos
}.

(** What [showList] finds in the page: the element
    [paraDOM.querySelector("." + suggestionTextClass)] with its bounding
    rectangle and height, pixel values read as integers. *)
Record TextDOM : Type := {
  rect_left : Z;
  rect_top : Z;
  offsetHeight : Z
}.

Inductive css_display : Type := display_unset | display_none | display_block.

(** The inline style the plugin writes on the dropdown element. *)
Record el_style : Type := {
  st_position : option string;
  st_left : option Z;
  st_top : option Z;
  st_display : css_display;
  st_zIndex : option string
}.

Definition set_display (d : css_display) (st : el_style) : el_style :=
  {| st_position := st_position st; st_left := st_left st;
     st_top := st_top st; st_display := d; st_zIndex := st_zIndex st |}.

Section Plugin.
(** What the caller keeps in the dropdown element, the suggestion items
    and the attributes of a candidate are the caller's. *)
Context {DropdownEl SuggestionItem Attrs : Type}.

(** The options: the triggers and the caller's hooks.  A hook receives the
    dropdown element and answers with what it made of it.
    [getSuggestions] is the caller's too: a call is recorded as a request,
    and the caller answers it when it calls [callWhenDone]. *)
Record Opts : Type := {
  triggers : TriggerConfig;
  createDropdownEl : DropdownEl;
  showDropdownEl : DropdownEl -> option (list SuggestionItem) -> DropdownEl;
  hideDropdownEl : DropdownEl -> DropdownEl;
  goNext : DropdownEl -> DropdownEl;
  goPrev : DropdownEl -> DropdownEl;
  getCurItemAttrsForSelect : DropdownEl -> option Attrs;
  destroy : DropdownEl -> DropdownEl;
  suggestionTextClass : string;
  delay : nat
}.

(** The dropdown element [el]: the caller's part, the style, and whether it
    hangs in the document. *)
Record Dropdown : Type := {
  content : DropdownEl;
  style : el_style;
  in_document : bool
}.

(** [tr.replaceWith(from, to, schema.nodes[type].create(attrs))] *)
Record Transaction : Type := {
  tr_from : Z;
  tr_to : Z;
  tr_node_type : token_type;
  tr_node_attrs : Attrs
}.

(** The editor view as far as the plugin touches it: the plugin's field of
    [view.state] (what [getState(view.state)] reads), the selection of
    [view.state], the element that [showList] looks up, and the
    transactions handed to [view.dispatch]. *)
Record EditorView : Type := {
  view_pluginState : SuggestionState;
  view_selection : Selection;
  view_textDOM : option TextDOM;
  view_dispatched : list Transaction
}.

(** A call of [getSuggestions(type, text, callWhenDone)]; [callWhenDone]
    closes over the plugin state of the update that scheduled it. *)
Record Request : Type := {
  rq_type : token_type;
  rq_text : option jsstring;
  rq_state : SuggestionState
}.

(** Everything the plugin reads and writes: the view, the variables of the
    closure of [getMentionsPlugin], the property [state] that the Escape
    branch sets on the plugin object, the closure of [debounce] with the
    runtime's timers (a timer's function closes over the plugin state of
    its update), and the requests made to the caller. *)
Record World : Type := {
  view : EditorView;
  el : Dropdown;
  elAddedToBody : bool;
  showListTimeoutId : option nat;
  this_state : option SuggestionState;
  js : debounce_env SuggestionState unit;
  requests : list Request
}.

Definition set_view (v : EditorView) (w : World) : World :=
  {| view := v; el := el w; elAddedToBody := elAddedToBody w;
     showListTimeoutId := showListTimeoutId w; this_state := this_state w;
     js := js w; requests := requests w |}.

Definition set_el (e : Dropdown) (w : World) : World :=
  {| view := view w; el := e; elAddedToBody := elAddedToBody w;
     showListTimeoutId := showListTimeoutId w; this_state := this_state w;
     js := js w; requests := requests w |}.

Definition set_elAddedToBody (b : bool) (w : World) : World :=
  {| view := view w; el := el w; elAddedToBody := b;
     showListTimeoutId := showListTimeoutId w; this_state := this_state w;
     js := js w; requests := requests w |}.

Definition set_showListTimeoutId (i : option nat) (w : World) : World :=
  {| view := view w; el := el w; elAddedToBody := elAddedToBody w;
     showListTimeoutId := i; this_state := this_state w;
     js := js w; requests := requests w |}.

Definition set_this_state (s : option SuggestionState) (w : World) : World :=
  {| view := view w; el := el w; elAddedToBody := elAddedToBody w;
     showListTimeoutId := showListTimeoutId w; this_state := s;
     js := js w; requests := requests w |}.

Definition set_js (j : debounce_env SuggestionState unit) (w : World) : World :=
  {| view := view w; el := el w; elAddedToBody := elAddedToBody w;
     showListTimeoutId := showListTimeoutId w; this_state := this_state w;
     js := j; requests := requests w |}.

Definition set_requests (r : list Request) (w : World) : World :=
  {| view := view w; el := el w; elAddedToBody := elAddedToBody w;
     showListTimeoutId := showListTimeoutId w; this_state := this_state w;
     js := js w; requests := r |}.

(** [clearTimeout(id)] on the runtime inside the world. *)
Definition clearTimeout (id : option nat) (w : World) : World :=
  set_js {| timeoutId := timeoutId (js w);
            timers := Timers.clearTimeout id (timers (js w)) |} w.

(** [this.getState(view.state)] and [this.key.getState(view.state)]: the
    plugin's field of the editor state. *)
Definition getState (w : World) : SuggestionState :=
  view_pluginState (view w).

Variable opts : Opts.

(** [showList(view, state, suggestionItems, opts)]; [None] is the
    [TypeError] raised when the lookup of the decorated span yields no
    element, before anything is written. *)
Definition showList (state : SuggestionState)
    (suggestionItems : option (list SuggestionItem)) (w : World)
  : option World :=
  match view_textDOM (view w) with
  | None => None
  | Some textDOM =>
      let w1 :=
        if elAddedToBody w then w
        else set_el {| content := content (el w); style := style (el w);
                       in_document := true |}
                    (set_elAddedToBody true w) in
      let top := (offsetHeight textDOM + rect_top textDOM)%Z in
      let style' :=
        {| st_position := Some "fixed"%string;
           st_left := Some (rect_left textDOM);
           st_top := Some top;
           st_display := display_block;
           st_zIndex := Some "999999"%string |} in
      Some (set_el {| content := showDropdownEl opts (content (el w1))
                                                suggestionItems;
                      style := style';
                      in_document := in_document (el w1) |} w1)
  end.

Definition hideList (w : World) : World :=
  set_el {| content := hideDropdownEl opts (content (el w));
            style := set_display display_none (style (el w));
            in_document := in_document (el w) |} w.

(** [state.init] *)
Definition init : SuggestionState := getNewState.

(** [state.apply(tr, state)] *)
Definition apply (tr_selection : Selection) (state : SuggestionState)
  : SuggestionState :=
  let newState := getNewState in
  let selection := tr_selection in
  if negb (sel_from selection =? sel_to selection)%Z then newState
  else
    match getMatch (sel_rfrom selection) (triggers opts) with
    | Some m =>
        {| active := true; range := m_range m; type := m_type m;
           text := m_queryText m |}
    | None => newState
    end.

(** [view().update(view)] *)
Definition update (w : World) : World :=
  let state := getState w in
  if negb (active state)
     || (requireText (triggers opts) && falsy_text (text state))
  then clearTimeout (showListTimeoutId w) (hideList w)
  else
    let '(id, j) := debounce state (delay opts) tt (js w) in
    set_showListTimeoutId (Some id) (set_js j w).

(** The selection after the editor has applied
    [tr.replaceWith(from, to, node)] to a caret at the end of the replaced
    range: the caret stands behind the node, and the text before it is the
    text before [from] and the node, a leaf, which reads as one NUL. *)
Definition replaced_selection (tr : Transaction) (selection : Selection)
  : Selection :=
  let position := sel_rfrom selection in
  let kept := take (Z.to_nat (tr_from tr - rp_start position))
                   (rp_text position) in
  {| sel_from := tr_from tr + 1;
     sel_to := tr_from tr + 1;
     sel_rfrom := {| rp_start := rp_start position;
                     rp_text := kept ++ [0%N] |} |}.

(** [view.dispatch(tr)]: the editor applies the transaction at once (its
    [dispatchTransaction] is [updateState(state.apply(tr))] unless the host
    sets another): the plugin state is computed by [apply] for the selection
    after the replacement, the page is drawn again, with the decorated span
    only when the new state has a decoration, and the view update runs,
    all before [dispatch] returns. *)
Definition dispatch (tr : Transaction) (w : World) : World :=
  let selection := replaced_selection tr (view_selection (view w)) in
  let state := apply selection (view_pluginState (view w)) in
  update
    (set_view {| view_pluginState := state;
                 view_selection := selection;
                 view_textDOM := if active state then view_textDOM (view w)
                                 else None;
                 view_dispatched := view_dispatched (view w) ++ [tr] |} w).

Definition select (state : SuggestionState) (w : World) : World :=
  match getCurItemAttrsForSelect opts (content (el w)) with
  | Some attrs =>
      dispatch {| tr_from := from (range state); tr_to := to (range state);
                  tr_node_type := type state; tr_node_attrs := attrs |} w
  | None => w
  end.

(** [props.handleKeyDown(view, e)]; the boolean tells whether the event was
    consumed. *)
Definition handleKeyDown (keyCode : N) (w : World) : bool * World :=
  let state := getState w in
  if negb (active state) then (false, w)
  else
    let enter := N.eqb keyCode 13 in
    let down := N.eqb keyCode 40 in
    let up := N.eqb keyCode 38 in
    let esc := N.eqb keyCode 27 in
    if down then
      (true, set_el {| content := goNext opts (content (el w));
                       style := style (el w);
                       in_document := in_document (el w) |} w)
    else if up then
      (true, set_el {| content := goPrev opts (content (el w));
                       style := style (el w);
                       in_document := in_document (el w) |} w)
    else if enter then (true, select state w)
    else if esc then
      (true, set_this_state (Some getNewState)
               (hideList (clearTimeout (showListTimeoutId w) w)))
    else (false, w).

(** [props.decorations(editorState)]: the range and class of the inline
    decoration, [None] for [null]. *)
Definition decorations (w : World) : option (Range * string) :=
  let st := getState w in
  if negb (active st) then None
  else Some (range st, suggestionTextClass opts).

(** The function given to [debounce], run when its timer fires: it calls
    [getSuggestions(state.type, state.text, callWhenDone)]. *)
Definition fetch (state : SuggestionState) (w : World) : World :=
  set_requests (requests w ++
                [{| rq_type := type state; rq_text := text state;
                    rq_state := state |}]) w.

(** [callWhenDone(suggestionItems)] of a request; a [TypeError] of
    [showList] leaves the world as it was. *)
Definition callWhenDone (rq : Request)
    (suggestionItems : option (list SuggestionItem)) (w : World) : World :=
  match showList (rq_state rq) suggestionItems w with
  | Some w' => w'
  | None => w
  end.

(** [view().destroy()] *)
Definition view_destroy (w : World) : World :=
  set_el {| content := destroy opts (content (el w));
            style := style (el w);
            in_document := false |} w.

(** What happens to the plugin: the editor applies a transaction (the new
    plugin state is computed, the page is drawn again, the view update
    runs), a key goes down, time passes, or the caller answers its [n]-th
    request. *)
Inductive event : Type :=
| EvTransaction (selection : Selection) (textDOM : option TextDOM)
| EvKeyDown (keyCode : N)
| EvElapse (dt : nat)
| EvResolve (n : nat) (suggestionItems : option (list SuggestionItem)).

Definition step (ev : event) (w : World) : World :=
  match ev with
  | EvTransaction selection textDOM =>
      update
        (set_view {| view_pluginState :=
                       apply selection (view_pluginState (view w));
                     view_selection := selection;
                     view_textDOM := textDOM;
                     view_dispatched := view_dispatched (view w) |} w)
  | EvKeyDown keyCode => snd (handleKeyDown keyCode w)
  | EvElapse dt =>
      let '(fired, rt) := Timers.elapse dt (timers (js w)) in
      fold_left (fun w' t => fetch (cb_func (Timers.t_task t)) w') fired
        (set_js {| timeoutId := timeoutId (js w); timers := rt |} w)
  | EvResolve n suggestionItems =>
      match requests w !! n with
      | Some rq => callWhenDone rq suggestionItems w
      | None => w
      end
  end.

Definition steps (evs : list event) (w : World) : World :=
  fold_left (fun w' ev => step ev w') evs w.

(** The world when [getMentionsPlugin] returns and the editor has
    initialised the plugin state, with the caret at the start of an empty
    document. *)
Definition world0 : World :=
  {| view := {| view_pluginState := init;
                view_selection :=
                  {| sel_from := 0; sel_to := 0;
                     sel_rfrom := {| rp_start := 0; rp_text := [] |} |};
                view_textDOM := None;
                view_dispatched := [] |};
     el := {| content := createDropdownEl opts;
              style := {| st_position := None; st_left := None;
                          st_top := None; st_display := display_unset;
                          st_zIndex := None |};
              in_document := false |};
     elAddedToBody := false;
     showListTimeoutId := None;
     this_state := None;
     js := debounce_init;
     requests := [] |}.
End Plugin.

Arguments Opts : clear implicits.
Arguments World : clear implicits.
Arguments Dropdown : clear implicits.
Arguments Transaction : clear implicits.
Arguments EditorView : clear implicits.
Arguments event : clear implicits.

(** The triggers of [defaultOpts]. *)
Definition defaultTriggers : TriggerConfig :=
  {| mentionTrigger := u16 "@"; hashtagTrigger := u16 "#";
     allowSpace := true; requireText := false |}.

(** [defaultOpts]: hooks that do nothing and answer [null].  The default
    [getSuggestions] calls [callWhenDone()] at once, with no items; the
    options [activeClass] and [maxNoOfSuggestions], which the plugin never
    reads, are left out. *)
Definition defaultOpts {DropdownEl SuggestionItem Attrs : Type}
    (div : DropdownEl) : Opts DropdownEl SuggestionItem Attrs :=
  {| triggers := defaultTriggers;
     createDropdownEl := div;
     showDropdownEl := fun dropdownEl _ => dropdownEl;
     hideDropdownEl := fun dropdownEl => dropdownEl;
     goNext := fun dropdownEl => dropdownEl;
     goPrev := fun dropdownEl => dropdownEl;
     getCurItemAttrsForSelect := fun _ => None;
     destroy := fun dropdownEl => dropdownEl;
     suggestionTextClass := "prosemirror-suggestion";
     delay := 500 |}.

(* ===================================================================== *)
(** * The node specs [mentionNode] and [tagNode] *)
(* ===================================================================== *)

Module Schema.

(** A DOM element as the node specs see it: its tag name, its attributes
    and its text. *)
Record Element : Type := {
  tagName : string;
  attributes : gmap string jsstring;
  textContent : jsstring
}.

(** [dom.getAttribute(name)]; [None] is [null]. *)
Definition getAttribute (name : string) (dom : Element) : option jsstring :=
  attributes dom !! name.

(** The array a [toDOM] returns: tag name, attribute object, text child. *)
Record DOMOutputSpec : Type := {
  spec_tag : string;
  spec_attrs : gmap string jsstring;
  spec_text : jsstring
}.

(** The editor's serializer builds the element of an output spec: it creates
    the element, sets every attribute of the object and appends the text. *)
Definition renderSpec (spec : DOMOutputSpec) : Element :=
  {| tagName := spec_tag spec;
     attributes := spec_attrs spec;
     textContent := spec_text spec |}.

(** The attributes of a mention node, strings as their defaults are. *)
Record MentionAttrs : Type := { did : jsstring; handle : jsstring }.

(** The attributes of a tag node. *)
Record TagAttrs : Type := { tag : jsstring }.

Definition mentionNode_attrs : MentionAttrs := {| did := []; handle := [] |}.

Definition mentionNode_toDOM (node_attrs : MentionAttrs) : DOMOutputSpec :=
  {| spec_tag := "span";
     spec_attrs :=
       <["data-mention-did"%string := did node_attrs]>
         (<["data-mention-handle"%string := handle node_attrs]>
            (<["class"%string := u16 "prosemirror-mention-node"]> ∅));
     spec_text := u16 "@" ++ handle node_attrs |}.

(** What [getAttrs] of the mention rule returns: [{ did, handle }], each the
    result of a [getAttribute]. *)
Record ParsedMention : Type := {
  parsed_did : option jsstring;
  parsed_handle : option jsstring
}.

Definition mentionNode_getAttrs (dom : Element) : ParsedMention :=
  let did := getAttribute "data-mention-did" dom in
  let handle := getAttribute "data-mention-handle" dom in
  {| parsed_did := did; parsed_handle := handle |}.

(** The selector ["span[data-mention-did][data-mention-handle]"]. *)
Definition mentionNode_tag (dom : Element) : bool :=
  String.eqb (tagName dom) "span"
  && bool_decide (is_Some (attributes dom !! "data-mention-did"%string))
  && bool_decide (is_Some (attributes dom !! "data-mention-handle"%string)).

(** The one rule of [mentionNode.parseDOM]. *)
Definition mentionNode_parseDOM (dom : Element) : option ParsedMention :=
  if mentionNode_tag dom then Some (mentionNode_getAttrs dom) else None.

Definition tagNode_attrs : TagAttrs := {| tag := [] |}.

Definition tagNode_toDOM (node_attrs : TagAttrs) : DOMOutputSpec :=
  {| spec_tag := "span";
     spec_attrs :=
       <["data-tag"%string := tag node_attrs]>
         (<["class"%string := u16 "prosemirror-tag-node"]> ∅);
     spec_text := u16 "#" ++ tag node_attrs |}.

Record ParsedTag : Type := { parsed_tag : option jsstring }.

Definition tagNode_getAttrs (dom : Element) : ParsedTag :=
  let tag := getAttribute "data-tag" dom in
  {| parsed_tag := tag |}.

(** The selector ["span[data-tag]"]. *)
Definition tagNode_tag (dom : Element) : bool :=
  String.eqb (tagName dom) "span"
  && bool_decide (is_Some (attributes dom !! "data-tag"%string)).

(** The one rule of [tagNode.parseDOM]. *)
Definition tagNode_parseDOM (dom : Element) : option ParsedTag :=
  if tagNode_tag dom then Some (tagNode_getAttrs dom) else None.

End Schema.

(* ===================================================================== *)
(** * Vocabulary of the properties *)
(* ===================================================================== *)

(** [over w s s']: the matcher went from [s] to [s'] by reading [w]. *)
Definition over (w : jsstring) (s s' : mstate) : Prop :=
  rest s = w ++ rest s' /\ pos s' = pos s + length w.

(** Every code unit of [w] is in the class [p]. *)
Definition all_in (p : N -> bool) (w : jsstring) : Prop :=
  Forall (fun c => p c = true) w.

(** What the first group of a pattern may read at index [i]: nothing at the
    start of the input, or one whitespace character. *)
Definition anchored (i : nat) (g : jsstring) : Prop :=
  (g = [] /\ i = 0) \/ (exists c, g = [c] /\ is_space c = true).

(** The language of a pattern body: the words it reads, leaving the
    captures alone. *)
Definition reads (body : regex) (L : jsstring -> Prop) : Prop :=
  forall s s',
    In s' (run body s) <-> exists q, L q /\ over q s s' /\ caps s' = caps s.

(** The shape the three patterns of [getRegexp] share. *)
Definition trigger_pattern (trigger : jsstring) (body : regex) : regex :=
  Seq (Grp 1 (Alt Bol (Cls is_space)))
    (Seq (Lit trigger) (Seq (Grp 2 body) Eol)).

(** The query texts of the mention pattern: characters of [[\w-\+]], at
    least one when [requireText]; with [allowSpace], then at most one
    whitespace character and again characters of the class. *)
Definition mention_query (cfg : TriggerConfig) (q : jsstring) : Prop :=
  exists a sp b,
    q = a ++ sp ++ b /\
    all_in is_mention_char a /\
    (requireText cfg = true -> a <> []) /\
    if allowSpace cfg
    then (sp = [] \/ exists c, sp = [c] /\ is_space c = true) /\
         all_in is_mention_char b
    else sp = [] /\ b = [].

(** The query texts of the tag pattern: one or more characters of [[\w-]]. *)
Definition tag_query (q : jsstring) : Prop :=
  q <> [] /\ all_in is_tag_char q.

(** [text] ends in a trigger that stands at the start of the text or after a
    whitespace character, followed by a query text of [L]. *)
Definition ends_in_trigger (trigger : jsstring) (L : jsstring -> Prop)
    (text q : jsstring) : Prop :=
  exists pre,
    text = pre ++ trigger ++ q /\
    (pre = [] \/ exists pre' c, pre = pre' ++ [c] /\ is_space c = true) /\
    L q.

(** The body of the second group of the mention pattern. *)
Definition mention_body (allowSpace requireText : bool) : regex :=
  let textOperator := if requireText then Plus else Star in
  if allowSpace
  then Seq (textOperator (Cls is_mention_char))
         (Seq (Opt (Cls is_space)) (Star (Cls is_mention_char)))
  else textOperator (Cls is_mention_char).

(** The body of the second group of the tag pattern. *)
Definition tag_body : regex := Plus (Cls is_tag_char).

(** How much longer than trigger and query text the range of an answer is:
    by one when the anchor is a whitespace character other than the space
    that [startsWith(" ")] looks for. *)
Definition unstripped (g : jsstring) : Z :=
  match g with
  | [c] => if N.eqb c 32 then 0 else 1
  | _ => 0
  end.

(** A trigger of at least one character that does not begin with a space. *)
Definition plain_trigger (trigger : jsstring) : Prop :=
  exists c tl, trigger = c :: tl /\ c <> 32%N.

(** What [getMatch] makes of a match array: the index and the matched text
    without a leading space, as a range from [start] on, and the second
    group. *)
Definition result_of (start : Z) (m : match_array) (ty : token_type)
  : MatchResult :=
  let index' := if startsWith_space (whole m) then index m + 1 else index m in
  let whole' := if startsWith_space (whole m) then substring1 (whole m)
                else whole m in
  {| m_range := {| from := start + Z.of_nat index';
                   to := start + Z.of_nat index' + Z.of_nat (length whole') |};
     m_queryText := group 2 m;
     m_type := ty |}.

(** The condition under which the matcher is claimed to answer: the trigger
    stands at the start of the text or after whitespace, and what follows it
    up to the cursor holds no whitespace, or, for a mention with
    [allowSpace], exactly one space inside. *)
Definition no_whitespace (q : jsstring) : Prop :=
  all_in (fun c => negb (is_space c)) q.

Definition one_space_inside (q : jsstring) : Prop :=
  exists a b, q = a ++ [32%N] ++ b /\ a <> [] /\ b <> [] /\
              no_whitespace a /\ no_whitespace b.

Definition claimed_to_match (cfg : TriggerConfig) (text : jsstring) : Prop :=
  (exists q, ends_in_trigger (mentionTrigger cfg)
               (fun q => no_whitespace q \/
                         (allowSpace cfg = true /\ one_space_inside q))
               text q) \/
  (exists q, ends_in_trigger (hashtagTrigger cfg) no_whitespace text q).

(** A burst of calls to [debounce] with one delay: before every call some
    time passes. *)
Fixpoint burst {Func : Type} (delay : nat) (calls : list (nat * Func))
  : list (debounce_step Func) :=
  match calls with
  | [] => []
  | (gap, func) :: calls' => Wait gap :: Call func delay :: burst delay calls'
  end.

(** The state between the calls of a burst: nothing has run, and the one
    pending timer is that of the last call, made at time [called] and due
    [delay] after it. *)
Definition one_pending {Func Ctx : Type} (context : Ctx) (delay : nat)
    (func : Func) (called : nat)
    (acc : list (Timers.timer (timer_callback Func Ctx))
           * debounce_env Func Ctx) : Prop :=
  fst acc = [] /\
  Timers.now (timers (snd acc)) = called /\
  exists id,
    timeoutId (snd acc) = Some id /\
    Timers.pending (timers (snd acc))
    = [{| Timers.t_id := id; Timers.t_due := called + delay;
          Timers.t_task := {| cb_func := func; cb_context := context |} |}].

(** The stale-result guard of the specification: the plugin state is active
    with the type and the query text of the request. *)
Definition still_current {DropdownEl Attrs : Type}
    (rq : Request) (w : World DropdownEl Attrs) : Prop :=
  active (getState w) = true /\
  type (getState w) = rq_type rq /\
  text (getState w) = rq_text rq.

(** A caller for the scenarios: candidates are named by strings, the
    dropdown element holds the items it was last asked to show, and has no
    candidate highlighted. *)
Definition scenario_opts : Opts (option (list string)) string unit :=
  {| triggers := defaultTriggers;
     createDropdownEl := None;
     showDropdownEl := fun _ suggestionItems => suggestionItems;
     hideDropdownEl := fun dropdownEl => dropdownEl;
     goNext := fun dropdownEl => dropdownEl;
     goPrev := fun dropdownEl => dropdownEl;
     getCurItemAttrsForSelect := fun _ => None;
     destroy := fun dropdownEl => dropdownEl;
     suggestionTextClass := "prosemirror-suggestion";
     delay := 500 |}.

(** A caret at the end of [text], the one line of the document. *)
Definition caret_after (text : string) : Selection :=
  {| sel_from := Z.of_nat (length (u16 text));
     sel_to := Z.of_nat (length (u16 text));
     sel_rfrom := {| rp_start := 0; rp_text := u16 text |} |}.

(** The decorated span as the page shows it. *)
Definition span_rect : TextDOM :=
  {| rect_left := 40; rect_top := 100; offsetHeight := 18 |}.

(** The user types ["@al"], the debounced fetch for it goes out; the user
    types on to ["@ali"], the fetch for that goes out and is answered. *)
Definition two_fetches
  : list (event string) :=
  [ EvTransaction (caret_after "@al") (Some span_rect);
    EvElapse 500;
    EvTransaction (caret_after "@ali") (Some span_rect);
    EvElapse 500;
    EvResolve 1 (Some ["alice"%string]) ].

(** The characters that are syntax in a pattern source. *)
Definition is_syntax_char (c : N) : bool :=
  N.eqb c 94 || N.eqb c 36 || N.eqb c 92 || N.eqb c 46 || N.eqb c 42
  || N.eqb c 43 || N.eqb c 63 || N.eqb c 40 || N.eqb c 41 || N.eqb c 91
  || N.eqb c 93 || N.eqb c 123 || N.eqb c 125 || N.eqb c 124.

(** A trigger that stands for itself when it is spliced into the pattern
    source: none of its characters is pattern syntax.  For such triggers
    [getRegexp] is the pattern that the code builds. *)
Definition literal_trigger (trigger : jsstring) : Prop :=
  all_in (fun c => negb (is_syntax_char c)) trigger.

Definition literal_triggers (cfg : TriggerConfig) : Prop :=
  literal_trigger (mentionTrigger cfg) /\ literal_trigger (hashtagTrigger cfg).

(** The number of whitespace characters of a text. *)
Definition whitespace_count (q : jsstring) : nat :=
  length (List.filter is_space q).

(** The trigger that a type of match stands for. *)
Definition trigger_of (cfg : TriggerConfig) (ty : token_type) : jsstring :=
  match ty with
  | type_tag => hashtagTrigger cfg
  | _ => mentionTrigger cfg
  end.

(** The same configuration with both restrictions of the mention pattern
    lifted: a space allowed, no text required. *)
Definition relaxed (cfg : TriggerConfig) : TriggerConfig :=
  {| mentionTrigger := mentionTrigger cfg;
     hashtagTrigger := hashtagTrigger cfg;
     allowSpace := true;
     requireText := false |}.

(** The keys that [handleKeyDown] handles: ArrowDown, ArrowUp, Enter and
    Escape. *)
Definition handled_key (keyCode : N) : bool :=
  N.eqb keyCode 40 || N.eqb keyCode 38 || N.eqb keyCode 13 || N.eqb keyCode 27.

(** The request that [fetch] makes for a plugin state. *)
Definition request_of (state : SuggestionState) : Request :=
  {| rq_type := type state; rq_text := text state; rq_state := state |}.

Section PluginVocabulary.
Context {DropdownEl SuggestionItem Attrs : Type}.
Variable opts : Opts DropdownEl SuggestionItem Attrs.

(** The worlds that the plugin gets into from its start. *)
Definition reachable (w : World DropdownEl Attrs) : Prop :=
  exists evs : list (event SuggestionItem), w = steps opts evs (world0 opts).

(** An active state has the type of a trigger. *)
Definition typed (state : SuggestionState) : Prop :=
  active state = true -> type state = type_mention \/ type state = type_tag.

(** A state for which [update] schedules a fetch. *)
Definition fetchable (state : SuggestionState) : Prop :=
  active state = true /\
  (type state = type_mention \/ type state = type_tag) /\
  (requireText (triggers opts) = true -> falsy_text (text state) = false).

(** The timers of the plugin: none is pending, or one, which is the one
    that [timeoutId] of [debounce] and [showListTimeoutId] name and whose
    function closes over the current plugin state, a fetchable one. *)
Definition one_fetch_pending (w : World DropdownEl Attrs) : Prop :=
  Timers.pending (timers (js w)) = [] \/
  exists t,
    Timers.pending (timers (js w)) = [t] /\
    timeoutId (js w) = Some (Timers.t_id t) /\
    showListTimeoutId w = Some (Timers.t_id t) /\
    cb_func (Timers.t_task t) = getState w /\
    fetchable (getState w).

(** What holds in every world of the plugin. *)
Definition plugin_inv (w : World DropdownEl Attrs) : Prop :=
  typed (getState w) /\
  one_fetch_pending w /\
  Forall (fun rq => rq = request_of (rq_state rq) /\ fetchable (rq_state rq))
         (requests w).

(** At most one timer is pending, the one that [timeoutId] of [debounce] and
    [showListTimeoutId] name. *)
Definition one_timer (w : World DropdownEl Attrs) : Prop :=
  Timers.pending (timers (js w)) = [] \/
  exists t,
    Timers.pending (timers (js w)) = [t] /\
    timeoutId (js w) = Some (Timers.t_id t) /\
    showListTimeoutId w = Some (Timers.t_id t).

(** The timers right after a view update: none is pending when the state is
    not fetchable; when it is, the one for the current state, due [delay]
    from now. *)
Definition fetch_scheduled (w : World DropdownEl Attrs) : Prop :=
  (~ fetchable (getState w) /\ Timers.pending (timers (js w)) = []) \/
  (fetchable (getState w) /\
   exists id,
     timeoutId (js w) = Some id /\
     showListTimeoutId w = Some id /\
     Timers.pending (timers (js w))
     = [{| Timers.t_id := id;
           Timers.t_due := Timers.now (timers (js w)) + delay opts;
           Timers.t_task := {| cb_func := getState w; cb_context := tt |} |}]).
End PluginVocabulary.


(** The dropdown is in the document exactly when [elAddedToBody] says so,
    and it is displayed only when it is in the document. *)
Definition dropdown_inv {DropdownEl Attrs : Type}
    (w : World DropdownEl Attrs) : Prop :=
  in_document (el w) = elAddedToBody w /\
  (st_display (style (el w)) = display_block -> in_document (el w) = true).

(** A trigger that holds no NUL, the character that a leaf node reads as. *)
Definition no_nul (trigger : jsstring) : Prop := ~ In 0%N trigger.

(* ===================================================================== *)
(** * The matcher of the runtime *)
(* ===================================================================== *)

Section RegexpFacts.

Lemma mstate_ext (a b : mstate) :
  pos a = pos b -> rest a = rest b -> caps a = caps b -> a = b.
Proof. destruct a, b; simpl; congruence. Qed.

Lemma over_nil (s s' : mstate) :
  over [] s s' -> caps s' = caps s -> s' = s.
Proof.
  intros [Hr Hp] Hc. apply mstate_ext; simpl in *; auto. lia.
Qed.

Lemma over_refl (s : mstate) : over [] s s.
Proof. split; simpl; auto. Qed.

Lemma over_trans (w1 w2 : jsstring) (s m s' : mstate) :
  over w1 s m -> over w2 m s' -> over (w1 ++ w2) s s'.
Proof.
  intros [Hr1 Hp1] [Hr2 Hp2]. split.
  - rewrite Hr1, Hr2. now rewrite <- app_assoc.
  - rewrite Hp2, Hp1, length_app. lia.
Qed.

Lemma over_advance (w : jsstring) (s : mstate) (l : jsstring) :
  rest s = w ++ l -> over w s (advance (length w) s).
Proof.
  intros H. split; simpl; auto.
  rewrite H. now rewrite drop_app_length.
Qed.

Lemma over_is_advance (w : jsstring) (s s' : mstate) :
  over w s s' -> caps s' = caps s -> s' = advance (length w) s.
Proof.
  intros [Hr Hp] Hc. apply mstate_ext; simpl; auto.
  rewrite Hr. now rewrite drop_app_length.
Qed.

Lemma is_prefix_spec (w l : jsstring) :
  is_prefix w l = true <-> exists l', l = w ++ l'.
Proof.
  revert l. induction w as [|a w IH]; intros l; simpl.
  - split; eauto.
  - destruct l as [|b l].
    + split; [discriminate | intros [l' H]; discriminate].
    + rewrite andb_true_iff, N.eqb_eq, IH. split.
      * intros [-> [l' ->]]. eauto.
      * intros [l' H]. injection H as -> ->. eauto.
Qed.

Lemma in_run_bol (s s' : mstate) :
  In s' (run Bol s) <-> pos s = 0 /\ s' = s.
Proof.
  simpl. destruct (Nat.eqb_spec (pos s) 0); simpl; intuition congruence.
Qed.

Lemma in_run_eol (s s' : mstate) :
  In s' (run Eol s) <-> rest s = [] /\ s' = s.
Proof.
  simpl. destruct (rest s); simpl; intuition congruence.
Qed.

Lemma in_run_lit (w : jsstring) (s s' : mstate) :
  In s' (run (Lit w) s) <-> over w s s' /\ caps s' = caps s.
Proof.
  simpl. destruct (is_prefix w (rest s)) eqn:E; simpl.
  - apply is_prefix_spec in E as [l' E]. split.
    + intros [<- | []]. split; [eapply over_advance; eauto | reflexivity].
    + intros [Ho Hc]. left. symmetry. now apply over_is_advance.
  - split; [tauto|]. intros [[Hr _] _].
    assert (is_prefix w (rest s) = true) by (apply is_prefix_spec; eauto).
    congruence.
Qed.

Lemma in_run_cls (p : N -> bool) (s s' : mstate) :
  In s' (run (Cls p) s) <->
  exists c, p c = true /\ over [c] s s' /\ caps s' = caps s.
Proof.
  simpl. destruct (rest s) as [|c tl] eqn:E.
  - split; [intros []|]. intros (c & _ & [Hr _] & _).
    rewrite E in Hr. discriminate.
  - destruct (p c) eqn:Hp; simpl.
    + split.
      * intros [<- | []]. exists c. repeat split; auto.
        simpl. now rewrite E.
      * intros (c' & _ & Ho & Hc). left. symmetry.
        now apply (over_is_advance [c']).
    + split; [tauto|]. intros (c' & Hp' & [Hr _] & _).
      rewrite E in Hr. simpl in Hr. injection Hr as -> _. congruence.
Qed.

Lemma in_run_seq (r1 r2 : regex) (s s' : mstate) :
  In s' (run (Seq r1 r2) s) <->
  exists m, In m (run r1 s) /\ In s' (run r2 m).
Proof. simpl. apply in_flat_map. Qed.

Lemma in_run_alt (r1 r2 : regex) (s s' : mstate) :
  In s' (run (Alt r1 r2) s) <-> In s' (run r1 s) \/ In s' (run r2 s).
Proof. simpl. apply in_app_iff. Qed.

Lemma in_run_grp (n : nat) (r : regex) (s s' : mstate) :
  In s' (run (Grp n r) s) <-> exists m, In m (run r s) /\ s' = capture n s m.
Proof.
  simpl. rewrite in_map_iff. split; intros (m & H1 & H2); eauto.
Qed.

Lemma in_run_opt (r : regex) (s s' : mstate) :
  In s' (run (Opt r) s) <->
  (In s' (run r s) /\ pos s < pos s') \/ s' = s.
Proof.
  simpl. rewrite in_app_iff, filter_In. unfold progress.
  rewrite Nat.ltb_lt. simpl. intuition congruence.
Qed.

(** [r*] over a class reads the words of the class. *)
Lemma in_star_loop_cls (p : N -> bool) (fuel : nat) :
  forall s s',
    length (rest s) < fuel ->
    (In s' (star_loop (run (Cls p)) fuel s) <->
     exists w, all_in p w /\ over w s s' /\ caps s' = caps s).
Proof.
  induction fuel as [|fuel IH]; intros s s' Hf; [lia|].
  simpl star_loop. rewrite in_app_iff, in_flat_map. split.
  - intros [(m & Hm & Hs') | [<- | []]].
    + apply filter_In in Hm as [Hm _].
      apply in_run_cls in Hm as (c & Hp & Ho & Hc).
      apply IH in Hs' as (w & Hw & Ho' & Hc').
      * exists (c :: w). split; [constructor; auto|].
        split; [apply (over_trans [c] w s m s'); auto | congruence].
      * destruct Ho as [Hr _]. rewrite Hr in Hf. simpl in Hf. lia.
    + exists []. split; [constructor|]. split; [apply over_refl | reflexivity].
  - intros (w & Hw & Ho & Hc). destruct w as [|c w].
    + right. left. symmetry. now apply over_nil.
    + left. exists (advance 1 s).
      destruct Ho as [Hr Hp]. inversion Hw; subst.
      assert (Ho1 : over [c] s (advance 1 s)).
      { apply (over_advance [c] s (w ++ rest s')). exact Hr. }
      split.
      * apply filter_In. split.
        -- apply in_run_cls. exists c. repeat split; auto; apply Ho1.
        -- unfold progress. apply Nat.ltb_lt. simpl. lia.
      * apply IH.
        -- simpl. rewrite Hr. simpl. rewrite drop_0. rewrite Hr in Hf.
           simpl in Hf. rewrite length_app in *. lia.
        -- exists w. split; auto. split; [|simpl; auto].
           split; simpl.
           ++ rewrite Hr. reflexivity.
           ++ rewrite Hp. simpl. lia.
Qed.

Lemma in_run_star_cls (p : N -> bool) (s s' : mstate) :
  In s' (run (Star (Cls p)) s) <->
  exists w, all_in p w /\ over w s s' /\ caps s' = caps s.
Proof.
  change (run (Star (Cls p)) s)
    with (star_loop (run (Cls p)) (S (length (rest s))) s).
  apply in_star_loop_cls. lia.
Qed.

Lemma in_run_plus_cls (p : N -> bool) (s s' : mstate) :
  In s' (run (Plus (Cls p)) s) <->
  exists w, (w <> [] /\ all_in p w) /\ over w s s' /\ caps s' = caps s.
Proof.
  change (run (Plus (Cls p)) s)
    with (flat_map
            (fun s1 => star_loop (run (Cls p)) (S (length (rest s1))) s1)
            (run (Cls p) s)).
  rewrite in_flat_map. split.
  - intros (m & Hm & Hs').
    apply (in_run_cls p s m) in Hm as (c & Hp & Ho & Hc).
    apply in_star_loop_cls in Hs' as (w & Hw & Ho' & Hc'); [|lia].
    exists (c :: w). split; [split; [discriminate | constructor; auto]|].
    split; [apply (over_trans [c] w s m s'); auto | congruence].
  - intros (w & [Hne Hw] & Ho & Hc). destruct w as [|c w]; [congruence|].
    inversion Hw; subst. destruct Ho as [Hr Hp]. exists (advance 1 s).
    assert (Ho1 : over [c] s (advance 1 s)).
    { apply (over_advance [c] s (w ++ rest s')). exact Hr. }
    split.
    + apply (in_run_cls p). exists c. repeat split; auto; apply Ho1.
    + apply in_star_loop_cls; [lia|]. exists w. split; auto.
      split; [|simpl; auto]. split; simpl.
      * rewrite Hr. reflexivity.
      * rewrite Hp. simpl. lia.
Qed.

End RegexpFacts.

Section PatternFacts.

Lemma getRegexp_mention (mt ht : jsstring) (a r : bool) :
  re_mention (getRegexp mt ht a r) = trigger_pattern mt (mention_body a r).
Proof. destruct a, r; reflexivity. Qed.

Lemma getRegexp_tag (mt ht : jsstring) (a r : bool) :
  re_tag (getRegexp mt ht a r) = trigger_pattern ht tag_body.
Proof. reflexivity. Qed.

Lemma reads_star_cls (p : N -> bool) : reads (Star (Cls p)) (all_in p).
Proof. intros s s'. apply in_run_star_cls. Qed.

Lemma reads_plus_cls (p : N -> bool) :
  reads (Plus (Cls p)) (fun w => w <> [] /\ all_in p w).
Proof. intros s s'. apply in_run_plus_cls. Qed.

Lemma reads_opt_cls (p : N -> bool) :
  reads (Opt (Cls p)) (fun w => w = [] \/ exists c, w = [c] /\ p c = true).
Proof.
  intros s s'. rewrite in_run_opt, in_run_cls. split.
  - intros [[(c & Hp & Ho & Hc) _] | ->].
    + exists [c]. eauto 6.
    + exists []. split; [now left|]. split; [apply over_refl | reflexivity].
  - intros (w & [-> | (c & -> & Hp)] & Ho & Hc).
    + right. now apply over_nil.
    + left. split; [eauto|]. destruct Ho as [_ Ho]. simpl in Ho. lia.
Qed.

Lemma reads_seq (r1 r2 : regex) (L1 L2 : jsstring -> Prop) :
  reads r1 L1 -> reads r2 L2 ->
  reads (Seq r1 r2) (fun w => exists w1 w2, w = w1 ++ w2 /\ L1 w1 /\ L2 w2).
Proof.
  intros H1 H2 s s'. rewrite in_run_seq. split.
  - intros (m & Hm & Hs').
    apply H1 in Hm as (w1 & Hw1 & Ho1 & Hc1).
    apply H2 in Hs' as (w2 & Hw2 & Ho2 & Hc2).
    exists (w1 ++ w2). split; [eauto|].
    split; [eapply over_trans; eauto | congruence].
  - intros (w & (w1 & w2 & -> & Hw1 & Hw2) & [Hr Hp] & Hc).
    exists (advance (length w1) s).
    rewrite <- app_assoc in Hr.
    pose proof (over_advance w1 s _ Hr) as Ho1.
    split.
    + apply H1. exists w1. repeat split; auto; apply Ho1.
    + apply H2. exists w2. split; auto. split; [|simpl; auto].
      split; simpl.
      * rewrite Hr. now rewrite drop_app_length.
      * rewrite Hp, length_app. lia.
Qed.

Lemma reads_ext (r : regex) (L1 L2 : jsstring -> Prop) :
  (forall w, L1 w <-> L2 w) -> reads r L1 -> reads r L2.
Proof.
  intros HL H s s'. rewrite (H s s').
  split; intros (q & Hq & Hrest); exists q; split; auto; now apply HL.
Qed.

Lemma reads_text_operator (requireText : bool) :
  reads ((if requireText then Plus else Star) (Cls is_mention_char))
        (fun a => all_in is_mention_char a /\ (requireText = true -> a <> [])).
Proof.
  destruct requireText.
  - eapply reads_ext; [|apply reads_plus_cls]. intros w. simpl. tauto.
  - eapply reads_ext; [|apply reads_star_cls]. intros w. simpl.
    split; [intros H; split; [auto | discriminate] | tauto].
Qed.

Lemma reads_mention_body (cfg : TriggerConfig) :
  reads (mention_body (allowSpace cfg) (requireText cfg)) (mention_query cfg).
Proof.
  unfold mention_body, mention_query.
  pose proof (reads_text_operator (requireText cfg)) as Hop.
  destruct (allowSpace cfg).
  - eapply reads_ext;
      [|apply (reads_seq _ _ _ _ Hop
                 (reads_seq _ _ _ _ (reads_opt_cls is_space)
                                    (reads_star_cls is_mention_char)))].
    intros w. split.
    + intros (a & w2 & -> & [Ha Hne] & sp & b & -> & Hsp & Hb).
      exists a, sp, b. auto.
    + intros (a & sp & b & -> & Ha & Hne & Hsp & Hb).
      exists a, (sp ++ b). split; auto. split; auto.
      exists sp, b. auto.
  - eapply reads_ext; [|apply Hop].
    intros w. split.
    + intros [Ha Hne]. exists w, [], []. rewrite !app_nil_r. auto.
    + intros (a & sp & b & -> & Ha & Hne & -> & ->).
      rewrite !app_nil_r. auto.
Qed.

Lemma reads_tag_body : reads tag_body tag_query.
Proof. apply reads_plus_cls. Qed.

Lemma capture_over (n : nat) (w : jsstring) (s m : mstate) :
  over w s m ->
  capture n s m = {| pos := pos m; rest := rest m; caps := (n, w) :: caps m |}.
Proof.
  intros [Hr Hp]. unfold capture. f_equal. f_equal. f_equal.
  rewrite Hr, Hp. replace (pos s + length w - pos s) with (length w) by lia.
  now rewrite take_app_length.
Qed.

Lemma in_run_grp_reads (n : nat) (r : regex) (L : jsstring -> Prop)
    (s s' : mstate) :
  (forall m, In m (run r s) <->
             exists w, L w /\ over w s m /\ caps m = caps s) ->
  (In s' (run (Grp n r) s) <->
   exists w, L w /\ over w s s' /\ caps s' = (n, w) :: caps s).
Proof.
  intros H. rewrite in_run_grp. split.
  - intros (m & Hm & ->). apply H in Hm as (w & Hw & Ho & Hc).
    exists w. rewrite (capture_over n w s m Ho). simpl.
    repeat split; try apply Ho; auto. now rewrite Hc.
  - intros (w & Hw & Ho & Hc).
    exists {| pos := pos s'; rest := rest s'; caps := caps s |}. split.
    + apply H. exists w. repeat split; auto; apply Ho.
    + rewrite (capture_over n w); [|split; simpl; apply Ho]. simpl.
      apply mstate_ext; simpl; auto.
Qed.

Lemma in_run_anchor (s m : mstate) :
  In m (run (Alt Bol (Cls is_space)) s) <->
  exists g, anchored (pos s) g /\ over g s m /\ caps m = caps s.
Proof.
  rewrite in_run_alt, in_run_bol, in_run_cls. unfold anchored. split.
  - intros [[H0 ->] | (c & Hc & Ho & Hcaps)].
    + exists []. split; [left; auto|]. split; [apply over_refl | reflexivity].
    + exists [c]. split; [right; eauto|]. auto.
  - intros (g & [[-> H0] | (c & -> & Hc)] & Ho & Hcaps).
    + left. split; auto. now apply over_nil.
    + right. eauto.
Qed.

(** The ends of a trigger pattern started at index [i] on [l]: all of [l]
    is read, as anchor, trigger and query text. *)
Lemma in_run_trigger_pattern (trigger : jsstring) (body : regex)
    (L : jsstring -> Prop) (i : nat) (l : jsstring) (s' : mstate) :
  reads body L ->
  (In s' (run (trigger_pattern trigger body)
              {| pos := i; rest := l; caps := [] |}) <->
   exists g q,
     anchored i g /\ L q /\ l = g ++ trigger ++ q /\
     s' = {| pos := i + length l; rest := []; caps := [(2, q); (1, g)] |}).
Proof.
  intros HL. unfold trigger_pattern.
  rewrite in_run_seq. split.
  - intros (m1 & H1 & H).
    apply (in_run_grp_reads 1 _ (anchored i)) in H1;
      [|intros m; apply in_run_anchor].
    destruct H1 as (g & Hg & Ho1 & Hc1). simpl in Hc1.
    apply in_run_seq in H as (m2 & H2 & H).
    apply in_run_lit in H2 as [Ho2 Hc2].
    apply in_run_seq in H as (m3 & H3 & H).
    apply (in_run_grp_reads 2 _ L) in H3; [|intros m; apply HL].
    destruct H3 as (q & Hq & Ho3 & Hc3).
    apply in_run_eol in H as [He ->].
    exists g, q. split; auto. split; auto.
    pose proof (over_trans _ _ _ _ _ Ho1 (over_trans _ _ _ _ _ Ho2 Ho3))
      as [Hr Hp].
    simpl in Hr, Hp. rewrite He, app_nil_r in Hr. split; auto.
    apply mstate_ext; simpl; auto.
    + rewrite Hp, Hr. reflexivity.
    + rewrite Hc3, Hc2, Hc1. reflexivity.
  - intros (g & q & Hg & Hq & -> & ->).
    set (s0 := {| pos := i; rest := g ++ trigger ++ q; caps := [] |}).
    set (m1 := {| pos := i + length g; rest := trigger ++ q;
                  caps := [(1, g)] |}).
    set (m2 := {| pos := i + length g + length trigger; rest := q;
                  caps := [(1, g)] |}).
    set (m3 := {| pos := i + length g + length trigger + length q;
                  rest := []; caps := [(2, q); (1, g)] |}).
    exists m1. split.
    + apply (in_run_grp_reads 1 _ (anchored i));
        [intros m; apply in_run_anchor|].
      exists g. repeat split; auto.
    + apply in_run_seq. exists m2. split.
      * apply in_run_lit. repeat split; auto.
      * apply in_run_seq. exists m3. split.
        -- apply (in_run_grp_reads 2 _ L); [intros m; apply HL|].
           exists q. repeat split; simpl; auto. now rewrite app_nil_r.
        -- apply in_run_eol. split; auto.
           apply mstate_ext; simpl; auto.
           rewrite !length_app. lia.
Qed.

End PatternFacts.

Section SearchFacts.

(** [search] answers with the first success at the first index that has
    one. *)
Lemma search_Some (r : regex) (l : jsstring) :
  forall i m,
    search r i l = Some m ->
    exists pre suf s' tl,
      l = pre ++ suf /\
      run r {| pos := i + length pre; rest := suf; caps := [] |} = s' :: tl /\
      m = {| index := i + length pre;
             whole := take (pos s' - (i + length pre)) suf;
             groups := caps s' |}.
Proof.
  induction l as [|c l IH]; intros i m; simpl.
  - destruct (run r _) as [|s' tl] eqn:E; [discriminate|].
    intros [= <-]. exists [], [], s', tl. simpl.
    rewrite Nat.add_0_r. auto.
  - destruct (run r _) as [|s' tl] eqn:E.
    + intros H. apply IH in H as (pre & suf & s' & tl & -> & Hrun & ->).
      exists (c :: pre), suf, s', tl. simpl.
      replace (i + S (length pre)) with (S i + length pre) by lia. auto.
    + intros [= <-]. exists [], (c :: l), s', tl. simpl.
      rewrite Nat.add_0_r. auto.
Qed.

Lemma search_None (r : regex) (l : jsstring) :
  forall i,
    search r i l = None ->
    forall pre suf,
      l = pre ++ suf ->
      run r {| pos := i + length pre; rest := suf; caps := [] |} = [].
Proof.
  induction l as [|c l IH]; intros i; simpl.
  - destruct (run r _) as [|s' tl] eqn:E; [|discriminate].
    intros _ pre suf H. symmetry in H. apply app_eq_nil in H as [-> ->].
    simpl. now rewrite Nat.add_0_r.
  - destruct (run r _) as [|s' tl] eqn:E; [|discriminate].
    intros H pre suf Hl. destruct pre as [|c' pre]; simpl in Hl.
    + subst suf. simpl. now rewrite Nat.add_0_r.
    + injection Hl as <- ->. simpl.
      replace (i + S (length pre)) with (S i + length pre) by lia.
      now apply (IH (S i)).
Qed.

Variable trigger : jsstring.
Variable body : regex.
Variable L : jsstring -> Prop.
Hypothesis HL : reads body L.

(** A match of a trigger pattern ends the text: it holds the anchor, the
    trigger and a query text, and the second group is the query text. *)
Lemma match_trigger_pattern_Some (text : jsstring) (m : match_array) :
  String_match text (trigger_pattern trigger body) = Some m ->
  exists pre g q,
    text = pre ++ g ++ trigger ++ q /\
    anchored (length pre) g /\ L q /\
    index m = length pre /\
    whole m = g ++ trigger ++ q /\
    groups m = [(2, q); (1, g)].
Proof.
  unfold String_match. intros H.
  apply search_Some in H as (pre & suf & s' & tl & -> & Hrun & ->).
  rewrite Nat.add_0_l in Hrun |- *.
  assert (Hin : In s' (run (trigger_pattern trigger body)
                         {| pos := length pre; rest := suf; caps := [] |})).
  { rewrite Hrun. now left. }
  apply (in_run_trigger_pattern trigger body L) in Hin; auto.
  destruct Hin as (g & q & Hg & Hq & -> & ->).
  exists pre, g, q. simpl. repeat split; auto.
  replace (length pre + length (g ++ trigger ++ q) - length pre)
    with (length (g ++ trigger ++ q)) by lia.
  apply firstn_all.
Qed.

Lemma match_trigger_pattern_None (text : jsstring) :
  String_match text (trigger_pattern trigger body) = None ->
  forall pre g q,
    text = pre ++ g ++ trigger ++ q ->
    anchored (length pre) g -> L q -> False.
Proof.
  unfold String_match. intros H pre g q Ht Hg Hq.
  pose proof (search_None _ _ _ H pre (g ++ trigger ++ q) Ht) as Hrun.
  rewrite Nat.add_0_l in Hrun.
  assert (Hin : In {| pos := length pre + length (g ++ trigger ++ q);
                      rest := []; caps := [(2, q); (1, g)] |}
                   (run (trigger_pattern trigger body)
                      {| pos := length pre; rest := g ++ trigger ++ q;
                         caps := [] |})).
  { apply (in_run_trigger_pattern trigger body L); auto.
    exists g, q. auto. }
  rewrite Hrun in Hin. destruct Hin.
Qed.

(** The anchor and what stands before it, read as the text before the
    trigger. *)
Lemma anchored_ends (text pre g q : jsstring) :
  text = pre ++ g ++ trigger ++ q -> anchored (length pre) g -> L q ->
  ends_in_trigger trigger L text q.
Proof.
  intros -> [[-> H0] | (c & -> & Hc)] Hq.
  - apply length_zero_iff_nil in H0 as ->. exists []. simpl. auto.
  - exists (pre ++ [c]). rewrite <- app_assoc. simpl. split; auto.
    split; auto. right. eauto.
Qed.

Lemma ends_anchored (text q : jsstring) :
  ends_in_trigger trigger L text q ->
  exists pre g, text = pre ++ g ++ trigger ++ q /\ anchored (length pre) g.
Proof.
  intros (pre & -> & [-> | (pre' & c & -> & Hc)] & Hq).
  - exists [], []. split; auto. left. auto.
  - exists pre', [c]. rewrite <- app_assoc. split; auto. right. eauto.
Qed.

Lemma match_trigger_pattern_iff (text : jsstring) :
  String_match text (trigger_pattern trigger body) <> None <->
  exists q, ends_in_trigger trigger L text q.
Proof.
  split.
  - destruct (String_match _ _) as [m|] eqn:E; [intros _|congruence].
    apply match_trigger_pattern_Some in E
      as (pre & g & q & Ht & Hg & Hq & _).
    exists q. eapply anchored_ends; eauto.
  - intros (q & Hq) Hnone.
    pose proof Hq as (pre0 & _ & _ & HLq).
    apply ends_anchored in Hq as (pre & g & Ht & Hg).
    eapply match_trigger_pattern_None; eauto.
Qed.

End SearchFacts.

(* ===================================================================== *)
(** * The trigger matcher *)
(* ===================================================================== *)

Section GetMatch.

Lemma getMatch_unfold (position : ResolvedPos) (cfg : TriggerConfig) :
  getMatch position cfg =
  match String_match (rp_text position)
          (trigger_pattern (mentionTrigger cfg)
             (mention_body (allowSpace cfg) (requireText cfg))) with
  | Some m => Some (result_of (rp_start position) m type_mention)
  | None =>
      match String_match (rp_text position)
              (trigger_pattern (hashtagTrigger cfg) tag_body) with
      | Some m => Some (result_of (rp_start position) m type_tag)
      | None => None
      end
  end.
Proof.
  unfold getMatch. rewrite getRegexp_mention, getRegexp_tag.
  destruct (String_match _ (trigger_pattern (mentionTrigger cfg) _));
    [reflexivity|].
  destruct (String_match _ _); reflexivity.
Qed.

Lemma group2_of (g q : jsstring) (m : match_array) :
  groups m = [(2, q); (1, g)] -> group 2 m = Some q.
Proof. unfold group. intros ->. reflexivity. Qed.

(** A leading space of the raw match is taken off: the range starts one
    later and is as long as the rest. *)
Lemma result_of_space (start : Z) (m : match_array) (ty : token_type)
    (w : jsstring) :
  whole m = 32%N :: w ->
  m_range (result_of start m ty) =
  {| from := start + Z.of_nat (index m) + 1;
     to := start + Z.of_nat (index m) + 1 + Z.of_nat (length w) |}.
Proof.
  intros H. unfold result_of. rewrite H.
  change (startsWith_space (32%N :: w)) with true. cbv beta iota.
  change (substring1 (32%N :: w)) with w.
  rewrite Nat2Z.inj_add. cbn [m_range]. f_equal; change (Z.of_nat 1) with 1%Z; lia.
Qed.

End GetMatch.

(** C2, as the code has it, for triggers that hold no pattern
    metacharacter.  The matcher answers exactly when the text up to
    the cursor ends in a trigger that stands at the start of the text or
    after one whitespace character and is followed by a query text of its
    pattern; for the mention trigger these are characters of the class
    (word characters, hyphen, plus), at least one when [requireText],
    and with [allowSpace] then at most one whitespace character and again
    characters of the class; for the hashtag trigger one or more word
    characters or hyphens.  The answer's query text is the text after the
    trigger, and its type tells which trigger it was; a tag is answered only
    when the mention pattern does not match. *)
Theorem C2_getMatch_characterised (position : ResolvedPos)
    (cfg : TriggerConfig) :
  literal_triggers cfg ->
  (getMatch position cfg <> None <->
   (exists q, ends_in_trigger (mentionTrigger cfg) (mention_query cfg)
                (rp_text position) q) \/
   (exists q, ends_in_trigger (hashtagTrigger cfg) tag_query
                (rp_text position) q))
  /\
  (forall r, getMatch position cfg = Some r ->
     exists q, m_queryText r = Some q /\
       ((m_type r = type_mention /\
         ends_in_trigger (mentionTrigger cfg) (mention_query cfg)
           (rp_text position) q) \/
        (m_type r = type_tag /\
         ends_in_trigger (hashtagTrigger cfg) tag_query (rp_text position) q /\
         ~ exists q', ends_in_trigger (mentionTrigger cfg) (mention_query cfg)
                        (rp_text position) q'))).
Proof.
  intros _.
  pose proof (reads_mention_body cfg) as Hm.
  pose proof reads_tag_body as Ht.
  pose proof (match_trigger_pattern_iff (mentionTrigger cfg) _ _ Hm
                (rp_text position)) as Hmi.
  pose proof (match_trigger_pattern_iff (hashtagTrigger cfg) _ _ Ht
                (rp_text position)) as Hti.
  rewrite getMatch_unfold.
  destruct (String_match _ (trigger_pattern (mentionTrigger cfg) _))
    as [mm|] eqn:Em.
  - split.
    + split; [intros _; left; apply Hmi; discriminate | discriminate].
    + intros r [= <-].
      apply (match_trigger_pattern_Some _ _ _ Hm) in Em
        as (pre & g & q & Htext & Hg & Hq & _ & _ & Hgr).
      exists q. split; [simpl; eapply group2_of; eauto|].
      left. split; [reflexivity|]. eapply anchored_ends; eauto.
  - destruct (String_match _ (trigger_pattern (hashtagTrigger cfg) _))
      as [tm|] eqn:Et.
    + split.
      * split; [intros _; right; apply Hti; discriminate | discriminate].
      * intros r [= <-].
        apply (match_trigger_pattern_Some _ _ _ Ht) in Et
          as (pre & g & q & Htext & Hg & Hq & _ & _ & Hgr).
        exists q. split; [simpl; eapply group2_of; eauto|].
        right. split; [reflexivity|]. split; [eapply anchored_ends; eauto|].
        intros Hex. apply Hmi in Hex. congruence.
    + split; [|discriminate]. split; [congruence|].
      intros [Hex | Hex]; [apply Hmi in Hex | apply Hti in Hex]; congruence.
Qed.

(** The range of an answer ends at the cursor, and it is as long as the
    trigger and the query text together, but one longer when the anchor is a
    whitespace character other than a space: that one is not taken off. *)
Lemma result_of_range (start : Z) (m : match_array) (ty : token_type)
    (pre g trigger q : jsstring) :
  plain_trigger trigger ->
  anchored (length pre) g ->
  index m = length pre ->
  whole m = g ++ trigger ++ q ->
  (to (m_range (result_of start m ty))
   = start + Z.of_nat (length (pre ++ g ++ trigger ++ q)))%Z /\
  (to (m_range (result_of start m ty)) - from (m_range (result_of start m ty))
   = Z.of_nat (length trigger) + Z.of_nat (length q) + unstripped g)%Z.
Proof.
  intros (c & tl & -> & Hc) Hg Hi Hw. unfold result_of. rewrite Hw, Hi.
  destruct Hg as [[-> _] | (a & -> & Ha)].
  - simpl app. unfold startsWith_space.
    destruct (N.eqb_spec c 32); [contradiction|].
    cbn [m_range from to unstripped].
    rewrite !length_app. simpl length. rewrite length_app. simpl length. lia.
  - simpl app. unfold startsWith_space, unstripped, substring1.
    destruct (N.eqb_spec a 32).
    + cbn [m_range from to drop].
      rewrite !length_app. simpl length. rewrite length_app. simpl length.
      lia.
    + cbn [m_range from to].
      rewrite !length_app. simpl length. rewrite length_app. simpl length.
      lia.
Qed.

(** X1: for triggers that hold no pattern metacharacter, are not empty and
    do not begin with a space, the range of an answer ends at the cursor;
    it is as long as trigger and query text, and one longer when the anchor
    is a whitespace character other than a space. *)
Theorem getMatch_range (position : ResolvedPos) (cfg : TriggerConfig)
    (r : MatchResult) :
  literal_triggers cfg ->
  plain_trigger (mentionTrigger cfg) ->
  plain_trigger (hashtagTrigger cfg) ->
  getMatch position cfg = Some r ->
  exists pre g q,
    let trigger :=
      match m_type r with
      | type_tag => hashtagTrigger cfg
      | _ => mentionTrigger cfg
      end in
    rp_text position = pre ++ g ++ trigger ++ q /\
    anchored (length pre) g /\
    m_queryText r = Some q /\
    (to (m_range r)
     = rp_start position + Z.of_nat (length (rp_text position)))%Z /\
    (to (m_range r) - from (m_range r)
     = Z.of_nat (length trigger) + Z.of_nat (length q) + unstripped g)%Z.
Proof.
  intros _ Hmt Hht. rewrite getMatch_unfold.
  destruct (String_match _ (trigger_pattern (mentionTrigger cfg) _))
    as [mm|] eqn:Em.
  - intros [= <-].
    apply (match_trigger_pattern_Some _ _ _ (reads_mention_body cfg)) in Em
      as (pre & g & q & Htext & Hg & Hq & Hi & Hw & Hgr).
    exists pre, g, q. cbn [m_type result_of].
    destruct (result_of_range (rp_start position) mm type_mention
                pre g _ q Hmt Hg Hi Hw) as [Hto Hlen].
    rewrite Htext. repeat split; auto.
    unfold result_of. simpl. eapply group2_of; eauto.
  - destruct (String_match _ (trigger_pattern (hashtagTrigger cfg) _))
      as [tm|] eqn:Et; [|discriminate].
    intros [= <-].
    apply (match_trigger_pattern_Some _ _ _ reads_tag_body) in Et
      as (pre & g & q & Htext & Hg & Hq & Hi & Hw & Hgr).
    exists pre, g, q. cbn [m_type result_of].
    destruct (result_of_range (rp_start position) tm type_tag
                pre g _ q Hht Hg Hi Hw) as [Hto Hlen].
    rewrite Htext. repeat split; auto.
    unfold result_of. simpl. eapply group2_of; eauto.
Qed.

(** The matcher answers on ["hi @ann"], whose trigger stands after a space
    and is followed by word characters. *)
Lemma C2_getMatch_characterised_witness :
  literal_triggers defaultTriggers /\
  (getMatch {| rp_start := 0; rp_text := u16 "hi @ann" |} defaultTriggers
     <> None <->
   (exists q, ends_in_trigger (mentionTrigger defaultTriggers)
                (mention_query defaultTriggers) (u16 "hi @ann") q) \/
   (exists q, ends_in_trigger (hashtagTrigger defaultTriggers) tag_query
                (u16 "hi @ann") q)).
Proof.
  assert (H : literal_triggers defaultTriggers)
    by (split; repeat constructor).
  split; [exact H|].
  exact (proj1 (C2_getMatch_characterised
                  {| rp_start := 0; rp_text := u16 "hi @ann" |}
                  defaultTriggers H)).
Defined.

(** C2 as claimed fails: in ["@a!"] the trigger stands at the start of the
    text and no whitespace follows it, so the claim has the matcher answer,
    yet it does not. *)
Lemma C2_no_whitespace_is_not_enough :
  ~ (getMatch {| rp_start := 0; rp_text := u16 "@a!" |} defaultTriggers
       <> None <->
     claimed_to_match defaultTriggers (u16 "@a!")).
Proof.
  intros [_ H]. apply H; [|vm_compute; reflexivity].
  left. exists (u16 "a!"), []. split; [reflexivity|]. split; [now left|].
  left. unfold no_whitespace, all_in. repeat constructor.
Qed.

(** The other direction fails as well: the one whitespace character that
    [allowSpace] admits may be a tab, and it may stand last. *)
Example getMatch_tab_inside :
  getMatch {| rp_start := 0; rp_text := u16 "@a" ++ [9%N] ++ u16 "b" |}
           defaultTriggers
  = Some {| m_range := {| from := 0; to := 4 |};
            m_queryText := Some (u16 "a" ++ [9%N] ++ u16 "b");
            m_type := type_mention |}.
Proof. vm_compute. reflexivity. Qed.

Example getMatch_space_last :
  getMatch {| rp_start := 0; rp_text := u16 "@ali " |} defaultTriggers
  = Some {| m_range := {| from := 0; to := 5 |};
            m_queryText := Some (u16 "ali ");
            m_type := type_mention |}.
Proof. vm_compute. reflexivity. Qed.

(** The scenarios of the specification. *)
Example getMatch_hash_work :
  getMatch {| rp_start := 0; rp_text := u16 "#work" |} defaultTriggers
  = Some {| m_range := {| from := 0; to := 5 |};
            m_queryText := Some (u16 "work");
            m_type := type_tag |}.
Proof. vm_compute. reflexivity. Qed.

Example getMatch_a_at_b :
  getMatch {| rp_start := 0; rp_text := u16 "a@b" |} defaultTriggers = None.
Proof. vm_compute. reflexivity. Qed.

Example getMatch_hello_ali :
  getMatch {| rp_start := 0; rp_text := u16 "hello @ali" |} defaultTriggers
  = Some {| m_range := {| from := 6; to := 10 |};
            m_queryText := Some (u16 "ali");
            m_type := type_mention |}.
Proof. vm_compute. reflexivity. Qed.

(** C5 at a match anchored by a tab: the text is ["hello<TAB>@ali"] with the
    cursor at its end.  The raw match starts with the tab, which
    [startsWith(" ")] does not see: the tab stays in the match and the range
    starts at the tab, at 5, where the trigger stands at 6. *)
Theorem C5_tab_anchor_is_not_stripped :
  getMatch {| rp_start := 0; rp_text := u16 "hello" ++ [9%N] ++ u16 "@ali" |}
           defaultTriggers
  = Some {| m_range := {| from := 5; to := 10 |};
            m_queryText := Some (u16 "ali");
            m_type := type_mention |}.
Proof. vm_compute. reflexivity. Qed.

(** So it is for a no-break space before the trigger. *)
Example getMatch_nbsp_anchor :
  getMatch {| rp_start := 0; rp_text := u16 "hello" ++ [160%N] ++ u16 "@ali" |}
           defaultTriggers
  = Some {| m_range := {| from := 5; to := 10 |};
            m_queryText := Some (u16 "ali");
            m_type := type_mention |}.
Proof. vm_compute. reflexivity. Qed.

(** C8: when both patterns match the text, the matcher answers with the
    match of the mention pattern: its range, its query text, the type
    mention. *)
Theorem C8_mention_match_has_priority (position : ResolvedPos)
    (cfg : TriggerConfig) (mentionMatch tagMatch : match_array) :
  let regex := getRegexp (mentionTrigger cfg) (hashtagTrigger cfg)
                         (allowSpace cfg) (requireText cfg) in
  String_match (rp_text position) (re_mention regex) = Some mentionMatch ->
  String_match (rp_text position) (re_tag regex) = Some tagMatch ->
  getMatch position cfg
  = Some (result_of (rp_start position) mentionMatch type_mention).
Proof.
  intros regex Hm Ht. subst regex. unfold getMatch. cbv zeta.
  rewrite Hm. reflexivity.
Qed.

(** A text on which both patterns match although the triggers differ: the
    hyphen is a character of the mention class. *)
Lemma C8_mention_match_has_priority_witness :
  let cfg := {| mentionTrigger := u16 "@"; hashtagTrigger := u16 "-";
                allowSpace := true; requireText := false |} in
  let position := {| rp_start := 10; rp_text := u16 "@a -b" |} in
  getMatch position cfg
  = Some {| m_range := {| from := 10; to := 15 |};
            m_queryText := Some (u16 "a -b");
            m_type := type_mention |}.
Proof.
  intros cfg position.
  rewrite (C8_mention_match_has_priority position cfg
             {| index := 0; whole := u16 "@a -b";
                groups := [(2, u16 "a -b"); (1, [])] |}
             {| index := 2; whole := u16 " -b";
                groups := [(2, u16 "b"); (1, u16 " ")] |}).
  - vm_compute. reflexivity.
  - vm_compute. reflexivity.
  - vm_compute. reflexivity.
Defined.

(** C10 at the same text: the range of the answer is five long, the query
    text three; the range holds the tab, the trigger and the query text. *)
Theorem C10_range_holds_the_tab :
  exists r : MatchResult,
    getMatch
      {| rp_start := 0; rp_text := u16 "hello" ++ [9%N] ++ u16 "@ali" |}
      defaultTriggers = Some r /\
    m_queryText r = Some (u16 "ali") /\
    (to (m_range r) - from (m_range r)
     = 2 + Z.of_nat (length (u16 "ali")))%Z.
Proof. eexists. split; [vm_compute; reflexivity|]. split; reflexivity. Qed.

(* ===================================================================== *)
(** * [debounce] *)
(* ===================================================================== *)

Section Debounce.
Context {Func Ctx : Type}.
Variable context : Ctx.

Local Abbreviation callback := (timer_callback Func Ctx).

Lemma elapse_not_due (dt : nat) (rt : Timers.runtime callback)
    (t : Timers.timer callback) :
  Timers.pending rt = [t] ->
  Timers.now rt + dt < Timers.t_due t ->
  Timers.elapse dt rt
  = ([], {| Timers.now := Timers.now rt + dt;
            Timers.next_id := Timers.next_id rt;
            Timers.pending := [t] |}).
Proof.
  intros Hp Hlt. unfold Timers.elapse. rewrite Hp. simpl.
  destruct (Nat.leb_spec (Timers.t_due t) (Timers.now rt + dt)); [lia|].
  reflexivity.
Qed.

Lemma elapse_due (dt : nat) (rt : Timers.runtime callback)
    (t : Timers.timer callback) :
  Timers.pending rt = [t] ->
  Timers.t_due t <= Timers.now rt + dt ->
  Timers.elapse dt rt
  = ([t], {| Timers.now := Timers.now rt + dt;
             Timers.next_id := Timers.next_id rt;
             Timers.pending := [] |}).
Proof.
  intros Hp Hle. unfold Timers.elapse. rewrite Hp. simpl.
  destruct (Nat.leb_spec (Timers.t_due t) (Timers.now rt + dt)); [|lia].
  reflexivity.
Qed.

(** A call while the timer of the call before is pending: that timer is
    cleared, and the new one is the only one pending. *)
Lemma debounce_supersedes (func : Func) (timeout : nat)
    (e : debounce_env Func Ctx) (t : Timers.timer callback) :
  timeoutId e = Some (Timers.t_id t) ->
  Timers.pending (timers e) = [t] ->
  debounce func timeout context e
  = (Timers.next_id (timers e),
     {| timeoutId := Some (Timers.next_id (timers e));
        timers :=
          {| Timers.now := Timers.now (timers e);
             Timers.next_id := S (Timers.next_id (timers e));
             Timers.pending :=
               [{| Timers.t_id := Timers.next_id (timers e);
                   Timers.t_due := Timers.now (timers e) + timeout;
                   Timers.t_task := {| cb_func := func;
                                       cb_context := context |} |}] |} |}).
Proof.
  intros Hid Hp. unfold debounce, Timers.clearTimeout, Timers.setTimeout.
  rewrite Hid. simpl. rewrite Hp. simpl. rewrite Nat.eqb_refl. reflexivity.
Qed.

Lemma last_cons {A : Type} (l : list A) :
  forall a d, List.last (a :: l) d = List.last l a.
Proof.
  induction l as [|b l IH]; intros a d; [reflexivity|].
  change (List.last (a :: b :: l) d) with (List.last (b :: l) d).
  now rewrite !IH.
Qed.

Lemma debounce_run_cons (st : debounce_step Func)
    (steps : list (debounce_step Func))
    (acc : list (Timers.timer callback) * debounce_env Func Ctx) :
  debounce_run context (st :: steps) acc
  = debounce_run context steps (debounce_run1 context st acc).
Proof. reflexivity. Qed.

Lemma debounce_run1_wait (dt : nat) (ran : list (Timers.timer callback))
    (e : debounce_env Func Ctx) :
  debounce_run1 context (Wait dt) (ran, e)
  = (ran ++ fst (Timers.elapse dt (timers e)),
     {| timeoutId := timeoutId e;
        timers := snd (Timers.elapse dt (timers e)) |}).
Proof. reflexivity. Qed.

Lemma debounce_run1_call (func : Func) (timeout : nat)
    (ran : list (Timers.timer callback)) (e : debounce_env Func Ctx) :
  debounce_run1 context (Call func timeout) (ran, e)
  = (ran, snd (debounce func timeout context e)).
Proof. reflexivity. Qed.

Lemma burst_one_pending (delay : nat) (more : list (nat * Func)) :
  Forall (fun c => fst c < delay) more ->
  forall func called acc,
    one_pending context delay func called acc ->
    one_pending context delay (List.last (map snd more) func)
      (called + list_sum (map fst more))
      (debounce_run context (burst delay more) acc).
Proof.
  induction 1 as [|[gap g] more Hgap _ IH]; intros func called acc Hacc.
  - simpl. rewrite Nat.add_0_r. exact Hacc.
  - simpl in Hgap.
    destruct acc as [ran e]. destruct Hacc as (Hran & Hnow & id & Hid & Hp).
    simpl in Hran, Hnow, Hid, Hp. subst ran.
    simpl burst.
    rewrite !debounce_run_cons, debounce_run1_wait, debounce_run1_call.
    rewrite (elapse_not_due gap _ _ Hp) by (simpl; lia).
    cbn [timers timeoutId fst snd app].
    match type of Hp with
    | _ = [?t] =>
        rewrite (debounce_supersedes g delay _ t) by (simpl; auto)
    end.
    cbn [snd Timers.now Timers.next_id].
    replace (List.last (map snd ((gap, g) :: more)) func)
      with (List.last (map snd more) g).
    2:{ simpl map. symmetry. apply last_cons. }
    replace (called + list_sum (map fst ((gap, g) :: more)))
      with (called + gap + list_sum (map fst more)) by (simpl; lia).
    apply IH. repeat split; simpl; try lia.
    eexists. split; [reflexivity|]. rewrite Hnow. reflexivity.
Qed.

End Debounce.

(** C3: a burst of one or more calls to [debounce] with one delay, every
    call less than the delay after the call before it, runs one callback:
    that of the last call, due the delay after the last call.  When less
    than the delay has passed since the last call nothing has run, and the
    callback of the last call is the only one pending; the callbacks of
    the calls before it are gone. *)
Theorem C3_debounce_runs_last_task_once {Func Ctx : Type} (context : Ctx)
    (delay gap0 : nat) (func0 : Func) (more : list (nat * Func)) (dt : nat) :
  Forall (fun c => fst c < delay) more ->
  let calls := (gap0, func0) :: more in
  let last_call := list_sum (map fst calls) in
  let last_timer id :=
    {| Timers.t_id := id; Timers.t_due := last_call + delay;
       Timers.t_task := {| cb_func := List.last (map snd more) func0;
                           cb_context := context |} |} in
  let done :=
    debounce_run context (burst delay calls ++ [Wait dt])
                 ([], debounce_init) in
  exists id,
    if delay <=? dt
    then fst done = [last_timer id] /\
         Timers.pending (timers (snd done)) = []
    else fst done = [] /\
         Timers.pending (timers (snd done)) = [last_timer id].
Proof.
  intros Hgaps calls last_call last_timer done.
  assert (H1 : one_pending context delay func0 gap0
                 (debounce_run context [Wait gap0; Call func0 delay]
                    ([], debounce_init))).
  { repeat split; simpl; auto. eexists. split; reflexivity. }
  pose proof (burst_one_pending context delay more Hgaps _ _ _ H1) as H2.
  subst done. unfold debounce_run in *. rewrite fold_left_app.
  change (burst delay calls)
    with ([Wait gap0; Call func0 delay] ++ burst delay more).
  rewrite fold_left_app.
  destruct (fold_left _ (burst delay more) _) as [ran e].
  destruct H2 as (Hran & Hnow & id & Hid & Hp). simpl in Hran, Hnow, Hid, Hp.
  subst ran. exists id.
  change (fold_left (fun a st => debounce_run1 context st a) [Wait dt] ([], e))
    with (debounce_run1 context (Wait dt) ([], e)).
  rewrite debounce_run1_wait.
  replace (gap0 + list_sum (map fst more)) with last_call in * by reflexivity.
  destruct (Nat.leb_spec delay dt).
  - rewrite (elapse_due dt _ _ Hp) by (simpl; lia). simpl. auto.
  - rewrite (elapse_not_due dt _ _ Hp) by (simpl; lia). simpl. auto.
Qed.

(** Three calls, 100 and 200 milliseconds apart, with a delay of 500: the
    third callback runs, 500 milliseconds after the third call. *)
Lemma C3_debounce_runs_last_task_once_witness :
  Forall (fun c : nat * string => fst c < 500)
         [(100, "second"%string); (200, "third"%string)] /\
  exists id,
    fst (debounce_run tt
           (burst 500 [(0, "first"%string); (100, "second"%string);
                       (200, "third"%string)] ++ [Wait 500])
           ([], debounce_init))
    = [{| Timers.t_id := id; Timers.t_due := 800;
          Timers.t_task := {| cb_func := "third"%string;
                              cb_context := tt |} |}] /\
    Timers.pending
      (timers (snd (debounce_run tt
           (burst 500 [(0, "first"%string); (100, "second"%string);
                       (200, "third"%string)] ++ [Wait 500])
           ([], debounce_init)))) = [].
Proof.
  assert (H : Forall (fun c : nat * string => fst c < 500)
                [(100, "second"%string); (200, "third"%string)]).
  { repeat constructor; simpl; lia. }
  split; [exact H|].
  exact (C3_debounce_runs_last_task_once tt 500 0 "first"%string
           [(100, "second"%string); (200, "third"%string)] 500 H).
Defined.

(* ===================================================================== *)
(** * The plugin *)
(* ===================================================================== *)

Section PluginFacts.
Context {DropdownEl SuggestionItem Attrs : Type}.
Variable opts : Opts DropdownEl SuggestionItem Attrs.

Lemma set_el_getState (e : Dropdown DropdownEl) (w : World DropdownEl Attrs) :
  getState (set_el e w) = getState w.
Proof. reflexivity. Qed.

Lemma handleKeyDown_inactive (keyCode : N) (w : World DropdownEl Attrs) :
  active (getState w) = false -> handleKeyDown opts keyCode w = (false, w).
Proof. intros H. unfold handleKeyDown. now rewrite H. Qed.

Lemma world_eta (w : World DropdownEl Attrs) :
  {| view := view w; el := el w; elAddedToBody := elAddedToBody w;
     showListTimeoutId := showListTimeoutId w; this_state := this_state w;
     js := js w; requests := requests w |} = w.
Proof. now destruct w. Qed.

End PluginFacts.

(** C4: when the selection of the transaction is a range, [from] other than
    [to], the state that [apply] computes is not active, whatever the text
    and whatever the state before. *)
Theorem C4_range_selection_is_inactive {DropdownEl SuggestionItem Attrs : Type}
    (opts : Opts DropdownEl SuggestionItem Attrs)
    (selection : Selection) (state : SuggestionState) :
  sel_from selection <> sel_to selection ->
  active (apply opts selection state) = false.
Proof.
  intros Hne. unfold apply.
  destruct (Z.eqb_spec (sel_from selection) (sel_to selection));
    [contradiction | reflexivity].
Qed.

(** The selection spans 3 to 7 over a text that would match at a caret. *)
Lemma C4_range_selection_is_inactive_witness :
  active (apply scenario_opts
            {| sel_from := 3; sel_to := 7;
               sel_rfrom := {| rp_start := 0; rp_text := u16 "hi @" |} |}
            {| active := true; range := {| from := 3; to := 7 |};
               type := type_mention; text := Some (u16 "ali") |})
  = false.
Proof.
  apply (C4_range_selection_is_inactive scenario_opts). simpl. lia.
Defined.

(** C7: when [getCurItemAttrsForSelect] answers nothing, [select] leaves
    everything as it was: no transaction is dispatched, the plugin state and
    the rest of the world are the same; so it is when Enter is pressed in an
    active state. *)
Theorem C7_select_without_candidate {DropdownEl SuggestionItem Attrs : Type}
    (opts : Opts DropdownEl SuggestionItem Attrs)
    (state : SuggestionState) (w : World DropdownEl Attrs) :
  getCurItemAttrsForSelect opts (content (el w)) = None ->
  select opts state w = w /\
  (active (getState w) = true -> handleKeyDown opts 13 w = (true, w)).
Proof.
  intros Hnone.
  assert (Hsel : forall st, select opts st w = w).
  { intros st. unfold select. now rewrite Hnone. }
  split; [apply Hsel|].
  intros Hact. unfold handleKeyDown. rewrite Hact. simpl. now rewrite Hsel.
Qed.

(** Enter with the dropdown open and no candidate highlighted, after the
    two fetches for ["@al"] and ["@ali"]. *)
Lemma C7_select_without_candidate_witness :
  let w := steps scenario_opts two_fetches (world0 scenario_opts) in
  active (getState w) = true /\
  view_dispatched (view (snd (handleKeyDown scenario_opts 13 w))) = [] /\
  snd (handleKeyDown scenario_opts 13 w) = w.
Proof.
  intros w.
  assert (Hact : active (getState w) = true) by (vm_compute; reflexivity).
  destruct (C7_select_without_candidate scenario_opts (getState w) w
              eq_refl) as [_ Hkey].
  rewrite (Hkey Hact). repeat split; auto.
Defined.

(** C6: Escape in an active state is consumed, clears the timer of the
    pending fetch and hides the dropdown.  The new state it makes is stored
    in the property [state] of the plugin object; the plugin state, which
    [getState] reads from the editor state, is the same as before and still
    active. *)
Theorem C6_escape_leaves_the_state_active
    {DropdownEl SuggestionItem Attrs : Type}
    (opts : Opts DropdownEl SuggestionItem Attrs)
    (w : World DropdownEl Attrs) :
  active (getState w) = true ->
  let w' := snd (handleKeyDown opts 27 w) in
  fst (handleKeyDown opts 27 w) = true /\
  timers (js w') = Timers.clearTimeout (showListTimeoutId w) (timers (js w)) /\
  st_display (style (el w')) = display_none /\
  content (el w') = hideDropdownEl opts (content (el w)) /\
  this_state w' = Some getNewState /\
  getState w' = getState w /\
  active (getState w') = true.
Proof.
  intros Hact. unfold handleKeyDown. rewrite Hact. simpl.
  repeat split; auto.
Qed.

(** Escape after the two fetches for ["@al"] and ["@ali"]: the state stays
    active, and an ArrowDown after it is still consumed. *)
Lemma C6_escape_leaves_the_state_active_witness :
  let w := steps scenario_opts two_fetches (world0 scenario_opts) in
  let w' := snd (handleKeyDown scenario_opts 27 w) in
  active (getState w) = true /\
  active (getState w') = true /\
  this_state w' = Some getNewState /\
  fst (handleKeyDown scenario_opts 40 w') = true.
Proof.
  intros w w'.
  assert (Hact : active (getState w) = true) by (vm_compute; reflexivity).
  destruct (C6_escape_leaves_the_state_active scenario_opts w Hact)
    as (_ & _ & _ & _ & Hthis & _ & Hact').
  repeat split; auto.
Defined.

(** C1, as the code has it: [callWhenDone] of any request, in any state of
    the plugin, hands the items to [showDropdownEl] and shows the dropdown,
    provided the page holds the decorated span that [showList] looks up; it
    compares neither the type nor the query text of the request with the
    plugin state. *)
Theorem C1_result_is_shown_in_any_state
    {DropdownEl SuggestionItem Attrs : Type}
    (opts : Opts DropdownEl SuggestionItem Attrs)
    (rq : Request) (suggestionItems : option (list SuggestionItem))
    (w : World DropdownEl Attrs) (textDOM : TextDOM) :
  view_textDOM (view w) = Some textDOM ->
  let w' := callWhenDone opts rq suggestionItems w in
  content (el w') = showDropdownEl opts (content (el w)) suggestionItems /\
  st_display (style (el w')) = display_block /\
  getState w' = getState w.
Proof.
  intros Hdom. unfold callWhenDone, showList. rewrite Hdom.
  destruct (elAddedToBody w); simpl; auto.
Qed.

(** The answer to the fetch for ["@al"] arrives when the state is active
    with ["@ali"] and the dropdown shows the answer to the later fetch. *)
Lemma C1_result_is_shown_in_any_state_witness :
  let w := steps scenario_opts two_fetches (world0 scenario_opts) in
  let rq := {| rq_type := type_mention; rq_text := Some (u16 "al");
               rq_state := {| active := true;
                              range := {| from := 0; to := 3 |};
                              type := type_mention;
                              text := Some (u16 "al") |} |} in
  view_textDOM (view w) = Some span_rect /\
  content (el (callWhenDone scenario_opts rq (Some ["alan"%string]) w))
  = Some ["alan"%string].
Proof.
  intros w rq.
  assert (Hdom : view_textDOM (view w) = Some span_rect)
    by (vm_compute; reflexivity).
  split; [exact Hdom|].
  destruct (C1_result_is_shown_in_any_state scenario_opts rq
              (Some ["alan"%string]) w span_rect Hdom) as [Hshown _].
  exact Hshown.
Defined.

(** C1 as claimed fails.  The fetch for ["@al"] goes out, the user types on
    to ["@ali"], the fetch for that goes out and is answered with
    ["alice"].  When the first fetch is answered the state is active with
    the query text ["ali"], not with that of the request, and yet its items
    replace those of the later fetch in the dropdown. *)
Lemma C1_stale_result_overwrites :
  let w := steps scenario_opts two_fetches (world0 scenario_opts) in
  let stale := Some ["alan"%string; "alice"%string] in
  exists rq,
    requests w !! 0 = Some rq /\
    rq_text rq = Some (u16 "al") /\
    text (getState w) = Some (u16 "ali") /\
    ~ still_current rq w /\
    content (el w) = Some ["alice"%string] /\
    content (el (step scenario_opts (EvResolve 0 stale) w)) = stale.
Proof.
  intros w stale. eexists. split; [vm_compute; reflexivity|].
  split; [reflexivity|]. split; [vm_compute; reflexivity|].
  split; [|split; vm_compute; reflexivity].
  intros (_ & _ & H). vm_compute in H. discriminate H.
Qed.

(* ===================================================================== *)
(** * The node specs *)
(* ===================================================================== *)

(** C9: the element that the serializer builds from [toDOM] of a mention
    node matches the parse rule of the mention node, and [getAttrs] reads
    [did] and [handle] back from it; its text is ["@"] followed by the
    handle.  So it is for a tag node with [tag] and ["#"]. *)
Theorem C9_node_specs_round_trip :
  (forall a : Schema.MentionAttrs,
     Schema.mentionNode_parseDOM
       (Schema.renderSpec (Schema.mentionNode_toDOM a))
     = Some {| Schema.parsed_did := Some (Schema.did a);
               Schema.parsed_handle := Some (Schema.handle a) |} /\
     Schema.textContent (Schema.renderSpec (Schema.mentionNode_toDOM a))
     = u16 "@" ++ Schema.handle a) /\
  (forall t : Schema.TagAttrs,
     Schema.tagNode_parseDOM (Schema.renderSpec (Schema.tagNode_toDOM t))
     = Some {| Schema.parsed_tag := Some (Schema.tag t) |} /\
     Schema.textContent (Schema.renderSpec (Schema.tagNode_toDOM t))
     = u16 "#" ++ Schema.tag t).
Proof.
  split.
  - intros a. split; [|reflexivity].
    unfold Schema.mentionNode_parseDOM, Schema.mentionNode_tag,
      Schema.mentionNode_getAttrs, Schema.getAttribute, Schema.renderSpec,
      Schema.mentionNode_toDOM.
    cbn [Schema.attributes Schema.tagName Schema.spec_attrs Schema.spec_tag].
    rewrite lookup_insert_eq.
    rewrite lookup_insert_ne by discriminate.
    rewrite lookup_insert_eq.
    rewrite !bool_decide_eq_true_2 by eauto. reflexivity.
  - intros t. split; [|reflexivity].
    unfold Schema.tagNode_parseDOM, Schema.tagNode_tag,
      Schema.tagNode_getAttrs, Schema.getAttribute, Schema.renderSpec,
      Schema.tagNode_toDOM.
    cbn [Schema.attributes Schema.tagName Schema.spec_attrs Schema.spec_tag].
    rewrite lookup_insert_eq.
    rewrite !bool_decide_eq_true_2 by eauto. reflexivity.
Qed.

(* ===================================================================== *)
(** * More on the trigger matcher *)
(* ===================================================================== *)

Section MatcherMore.

Lemma mention_char_not_space (c : N) :
  is_mention_char c = true -> is_space c = false.
Proof.
  unfold is_mention_char, is_word, is_space, in_range.
  rewrite !orb_true_iff, !andb_true_iff, !N.leb_le, !N.eqb_eq.
  intros H.
  assert (Hc : (43 <= c <= 122)%N) by lia.
  repeat (apply orb_false_intro);
    try (apply andb_false_iff; rewrite !N.leb_gt; lia);
    try (apply N.eqb_neq; lia).
Qed.

Lemma tag_char_mention_char (c : N) :
  is_tag_char c = true -> is_mention_char c = true.
Proof.
  unfold is_tag_char, is_mention_char. intros ->. reflexivity.
Qed.

Lemma whitespace_count_app (a b : jsstring) :
  whitespace_count (a ++ b) = whitespace_count a + whitespace_count b.
Proof.
  unfold whitespace_count. now rewrite List.filter_app, length_app.
Qed.

Lemma whitespace_count_mention (a : jsstring) :
  all_in is_mention_char a -> whitespace_count a = 0.
Proof.
  unfold whitespace_count. induction 1 as [|c a Hc _ IH]; [reflexivity|].
  simpl. now rewrite (mention_char_not_space c Hc).
Qed.

Lemma all_in_tag_mention (a : jsstring) :
  all_in is_tag_char a -> all_in is_mention_char a.
Proof.
  unfold all_in. induction 1 as [|c a Hc _ IH]; constructor; auto.
  now apply tag_char_mention_char.
Qed.

(** What an answer of [getMatch] comes from: the match array, and the text
    as what stands before the match, the anchor, the trigger and the query
    text. *)
Lemma getMatch_inv (position : ResolvedPos) (cfg : TriggerConfig)
    (r : MatchResult) :
  getMatch position cfg = Some r ->
  exists m pre g q,
    rp_text position = pre ++ g ++ trigger_of cfg (m_type r) ++ q /\
    anchored (length pre) g /\
    index m = length pre /\
    whole m = g ++ trigger_of cfg (m_type r) ++ q /\
    r = result_of (rp_start position) m (m_type r) /\
    m_queryText r = Some q /\
    ((m_type r = type_mention /\ mention_query cfg q) \/
     (m_type r = type_tag /\ tag_query q)).
Proof.
  rewrite getMatch_unfold.
  destruct (String_match _ (trigger_pattern (mentionTrigger cfg) _))
    as [mm|] eqn:Em.
  - intros [= <-].
    apply (match_trigger_pattern_Some _ _ _ (reads_mention_body cfg)) in Em
      as (pre & g & q & Htext & Hg & Hq & Hi & Hw & Hgr).
    exists mm, pre, g, q. cbn [m_type result_of trigger_of].
    repeat split; auto.
    unfold result_of. simpl. eapply group2_of; eauto.
  - destruct (String_match _ (trigger_pattern (hashtagTrigger cfg) _))
      as [tm|] eqn:Et; [|discriminate].
    intros [= <-].
    apply (match_trigger_pattern_Some _ _ _ reads_tag_body) in Et
      as (pre & g & q & Htext & Hg & Hq & Hi & Hw & Hgr).
    exists tm, pre, g, q. cbn [m_type result_of trigger_of].
    repeat split; auto.
    unfold result_of. simpl. eapply group2_of; eauto.
Qed.

End MatcherMore.

(** The range of the answer for ["hello @ali"]: it ends at the cursor and is
    as long as trigger and query text. *)
Lemma getMatch_range_witness :
  let position := {| rp_start := 0; rp_text := u16 "hello @ali" |} in
  let r := {| m_range := {| from := 6; to := 10 |};
              m_queryText := Some (u16 "ali");
              m_type := type_mention |} in
  literal_triggers defaultTriggers /\
  plain_trigger (mentionTrigger defaultTriggers) /\
  plain_trigger (hashtagTrigger defaultTriggers) /\
  getMatch position defaultTriggers = Some r /\
  exists pre g q,
    let trigger :=
      match m_type r with
      | type_tag => hashtagTrigger defaultTriggers
      | _ => mentionTrigger defaultTriggers
      end in
    rp_text position = pre ++ g ++ trigger ++ q /\
    anchored (length pre) g /\
    m_queryText r = Some q /\
    (to (m_range r)
     = rp_start position + Z.of_nat (length (rp_text position)))%Z /\
    (to (m_range r) - from (m_range r)
     = Z.of_nat (length trigger) + Z.of_nat (length q) + unstripped g)%Z.
Proof.
  intros position r.
  assert (H1 : plain_trigger (mentionTrigger defaultTriggers)).
  { exists 64%N, []. split; [reflexivity | discriminate]. }
  assert (H2 : plain_trigger (hashtagTrigger defaultTriggers)).
  { exists 35%N, []. split; [reflexivity | discriminate]. }
  assert (H3 : getMatch position defaultTriggers = Some r)
    by (vm_compute; reflexivity).
  assert (H0 : literal_triggers defaultTriggers)
    by (split; repeat constructor).
  split; [exact H0|].
  split; [exact H1|]. split; [exact H2|]. split; [exact H3|].
  exact (getMatch_range position defaultTriggers r H0 H1 H2 H3).
Defined.

(** X2: for triggers that hold no pattern metacharacter, the query text of
    an answer holds at most one whitespace character, and none when
    [allowSpace] is off or when the answer is a tag. *)
Theorem getMatch_query_whitespace (position : ResolvedPos)
    (cfg : TriggerConfig) (r : MatchResult) :
  literal_triggers cfg ->
  getMatch position cfg = Some r ->
  exists q,
    m_queryText r = Some q /\
    whitespace_count q <= 1 /\
    (allowSpace cfg = false -> whitespace_count q = 0) /\
    (m_type r = type_tag -> whitespace_count q = 0).
Proof.
  intros _ H. apply getMatch_inv in H
    as (m & pre & g & q & _ & _ & _ & _ & _ & Hq & Hcase).
  exists q. split; [exact Hq|].
  destruct Hcase as [[Hty (a & sp & b & -> & Ha & _ & Hsp)] | [Hty [_ Hall]]].
  - rewrite !whitespace_count_app, (whitespace_count_mention a Ha).
    destruct (allowSpace cfg).
    + destruct Hsp as [[-> | (c & -> & Hc)] Hb];
        rewrite (whitespace_count_mention b Hb);
        (split; [|split; [discriminate | congruence]]).
      * simpl. lia.
      * unfold whitespace_count. simpl. rewrite Hc. simpl. lia.
    + destruct Hsp as [-> ->]. simpl. repeat split; auto; lia.
  - rewrite (whitespace_count_mention q (all_in_tag_mention q Hall)).
    repeat split; auto; lia.
Qed.

Lemma getMatch_query_whitespace_witness :
  literal_triggers defaultTriggers /\
  exists q,
    Some (u16 "a b") = Some q /\
    whitespace_count q <= 1 /\
    (allowSpace defaultTriggers = false -> whitespace_count q = 0) /\
    (type_mention = type_tag -> whitespace_count q = 0).
Proof.
  assert (H0 : literal_triggers defaultTriggers)
    by (split; repeat constructor).
  split; [exact H0|].
  exact (getMatch_query_whitespace
           {| rp_start := 0; rp_text := u16 "@a b" |} defaultTriggers
           {| m_range := {| from := 0; to := 4 |};
              m_queryText := Some (u16 "a b");
              m_type := type_mention |}
           H0 eq_refl).
Defined.

(** X3: for triggers that hold no pattern metacharacter, the query text of a
    tag is never empty, and that of a mention is not empty when
    [requireText] is on. *)
Theorem getMatch_query_not_empty (position : ResolvedPos)
    (cfg : TriggerConfig) (r : MatchResult) :
  literal_triggers cfg ->
  getMatch position cfg = Some r ->
  m_type r = type_tag \/ requireText cfg = true ->
  exists c q, m_queryText r = Some (c :: q).
Proof.
  intros _ H Hor. apply getMatch_inv in H
    as (m & pre & g & q & _ & _ & _ & _ & _ & Hq & Hcase).
  assert (Hne : q <> []).
  { destruct Hcase as [[Hty (a & sp & b & -> & _ & Hne & _)] | [_ [Hne _]]];
      [|exact Hne].
    destruct Hor as [Htag | Hreq]; [congruence|].
    specialize (Hne Hreq). destruct a; [congruence | discriminate]. }
  destruct q as [|c q]; [congruence|]. eauto.
Qed.

Lemma getMatch_query_not_empty_witness :
  let cfg := {| mentionTrigger := u16 "@"; hashtagTrigger := u16 "#";
                allowSpace := true; requireText := true |} in
  literal_triggers cfg /\
  getMatch {| rp_start := 0; rp_text := u16 "hi @" |} cfg = None /\
  exists c q, Some (u16 "b") = Some (c :: q).
Proof.
  intros cfg.
  assert (H0 : literal_triggers cfg) by (split; repeat constructor).
  split; [exact H0|]. split; [vm_compute; reflexivity|].
  exact (getMatch_query_not_empty
           {| rp_start := 0; rp_text := u16 "hi @b" |} cfg
           {| m_range := {| from := 3; to := 5 |};
              m_queryText := Some (u16 "b");
              m_type := type_mention |}
           H0 eq_refl (or_intror eq_refl)).
Defined.

(** When the matcher answers, and answers nothing. *)
Lemma getMatch_is_Some (position : ResolvedPos) (cfg : TriggerConfig) :
  getMatch position cfg <> None <->
  (exists q, ends_in_trigger (mentionTrigger cfg) (mention_query cfg)
               (rp_text position) q) \/
  (exists q, ends_in_trigger (hashtagTrigger cfg) tag_query
               (rp_text position) q).
Proof.
  pose proof (match_trigger_pattern_iff (mentionTrigger cfg) _ _
                (reads_mention_body cfg) (rp_text position)) as Hmi.
  pose proof (match_trigger_pattern_iff (hashtagTrigger cfg) _ _
                reads_tag_body (rp_text position)) as Hti.
  rewrite getMatch_unfold.
  destruct (String_match _ (trigger_pattern (mentionTrigger cfg) _)).
  - split; [intros _; left; apply Hmi; discriminate | discriminate].
  - destruct (String_match _ (trigger_pattern (hashtagTrigger cfg) _)).
    + split; [intros _; right; apply Hti; discriminate | discriminate].
    + split; [congruence|].
      intros [Hex | Hex]; [apply Hmi in Hex | apply Hti in Hex]; congruence.
Qed.

Lemma mention_query_relaxed (cfg : TriggerConfig) (q : jsstring) :
  mention_query cfg q -> mention_query (relaxed cfg) q.
Proof.
  intros (a & sp & b & -> & Ha & _ & Hsp). exists a, sp, b. simpl.
  split; [reflexivity|]. split; [exact Ha|]. split; [discriminate|].
  destruct (allowSpace cfg); [exact Hsp|].
  destruct Hsp as [-> ->]. split; [now left | constructor].
Qed.

(** X4: Lifting the restrictions of the mention pattern loses no match: a text
    on which the matcher answers under [cfg] has an answer with a space
    allowed and no text required. *)
Theorem getMatch_relaxed (position : ResolvedPos) (cfg : TriggerConfig)
    (r : MatchResult) :
  getMatch position cfg = Some r ->
  exists r', getMatch position (relaxed cfg) = Some r'.
Proof.
  intros H.
  assert (Hs : getMatch position cfg <> None) by congruence.
  apply getMatch_is_Some in Hs.
  assert (Hs' : getMatch position (relaxed cfg) <> None).
  { apply getMatch_is_Some. destruct Hs as [(q & pre & Ht & Hb & Hq) | Hs].
    - left. exists q, pre. repeat split; auto. now apply mention_query_relaxed.
    - right. exact Hs. }
  destruct (getMatch position (relaxed cfg)) as [r'|]; [eauto | congruence].
Qed.

Lemma getMatch_relaxed_witness :
  let strict := {| mentionTrigger := u16 "@"; hashtagTrigger := u16 "#";
                   allowSpace := false; requireText := true |} in
  getMatch {| rp_start := 0; rp_text := u16 "@a b" |} strict = None /\
  exists r', getMatch {| rp_start := 0; rp_text := u16 "to @ann" |}
                      (relaxed strict) = Some r'.
Proof.
  intros strict. split; [vm_compute; reflexivity|].
  exact (getMatch_relaxed {| rp_start := 0; rp_text := u16 "to @ann" |} strict
           {| m_range := {| from := 3; to := 7 |};
              m_queryText := Some (u16 "ann");
              m_type := type_mention |}
           eq_refl).
Defined.

(* ===================================================================== *)
(** * More on the plugin *)
(* ===================================================================== *)

Section PluginMore.
Context {DropdownEl SuggestionItem Attrs : Type}.
Variable opts : Opts DropdownEl SuggestionItem Attrs.

Local Abbreviation W := (World DropdownEl Attrs).

Lemma apply_cases (selection : Selection) (state : SuggestionState) :
  (apply opts selection state = getNewState /\
   (sel_from selection <> sel_to selection \/
    getMatch (sel_rfrom selection) (triggers opts) = None)) \/
  (exists m,
     sel_from selection = sel_to selection /\
     getMatch (sel_rfrom selection) (triggers opts) = Some m /\
     apply opts selection state
     = {| active := true; range := m_range m; type := m_type m;
          text := m_queryText m |}).
Proof.
  unfold apply.
  destruct (Z.eqb_spec (sel_from selection) (sel_to selection)) as [He|Hne];
    simpl.
  - destruct (getMatch _ _) as [m|] eqn:E; [right; eauto | left; auto].
  - left. auto.
Qed.

Lemma apply_typed (selection : Selection) (state : SuggestionState) :
  typed (apply opts selection state).
Proof.
  destruct (apply_cases selection state) as [[-> _] | (m & _ & Hm & ->)].
  - intros H. discriminate H.
  - intros _. simpl.
    apply getMatch_inv in Hm
      as (_ & _ & _ & _ & _ & _ & _ & _ & _ & _ & [[H _] | [H _]]); auto.
Qed.

(** [clearTimeout] of the one pending timer, or of any id when none is
    pending, leaves none pending. *)
Lemma clearTimeout_one (Task : Type) (rt : Timers.runtime Task)
    (id : option nat) :
  Timers.pending rt = [] \/
  (exists t, Timers.pending rt = [t] /\ id = Some (Timers.t_id t)) ->
  Timers.pending (Timers.clearTimeout id rt) = [].
Proof.
  intros [Hp | (t & Hp & ->)].
  - destruct id; simpl; [rewrite Hp|]; auto.
  - simpl. rewrite Hp. simpl. now rewrite Nat.eqb_refl.
Qed.

Lemma update_fetchable (w : W) :
  fetchable opts (getState w) ->
  update opts w
  = set_showListTimeoutId
      (Some (fst (debounce (getState w) (delay opts) tt (js w))))
      (set_js (snd (debounce (getState w) (delay opts) tt (js w))) w).
Proof.
  intros (Ha & _ & Hr). unfold update. rewrite Ha. simpl.
  destruct (requireText (triggers opts)); simpl.
  - rewrite (Hr eq_refl). destruct (debounce (getState w) (delay opts) tt (js w)); reflexivity.
  - destruct (debounce (getState w) (delay opts) tt (js w)); reflexivity.
Qed.

Lemma update_not_fetchable (w : W) :
  typed (getState w) ->
  ~ fetchable opts (getState w) ->
  update opts w = clearTimeout (showListTimeoutId w) (hideList opts w).
Proof.
  intros Ht Hn. unfold update.
  destruct (active (getState w)) eqn:Ha; simpl; [|reflexivity].
  destruct (requireText (triggers opts)) eqn:Hr; simpl.
  - destruct (falsy_text (text (getState w))) eqn:Hf; [reflexivity|].
    exfalso. apply Hn. split; [exact Ha|]. split; [now apply Ht | auto].
  - exfalso. apply Hn. split; [exact Ha|]. split; [now apply Ht|].
    rewrite Hr. discriminate.
Qed.

Lemma fetchable_dec (state : SuggestionState) :
  fetchable opts state \/ ~ fetchable opts state.
Proof.
  unfold fetchable.
  destruct (active state); [|right; intros (H & _); discriminate].
  destruct (type state).
  - right. intros (_ & [H | H] & _); discriminate.
  - destruct (requireText (triggers opts)).
    + destruct (falsy_text (text state)).
      * right. intros (_ & _ & H). specialize (H eq_refl). discriminate.
      * left. auto.
    + left. repeat split; auto. discriminate.
  - destruct (requireText (triggers opts)).
    + destruct (falsy_text (text state)).
      * right. intros (_ & _ & H). specialize (H eq_refl). discriminate.
      * left. auto.
    + left. repeat split; auto. discriminate.
Qed.

Lemma one_fetch_pending_one_timer (w : W) :
  one_fetch_pending opts w -> one_timer w.
Proof.
  intros [H | (t & Hp & Hid & Hs & _)]; [now left | right; eauto].
Qed.

Lemma fetch_scheduled_one_fetch_pending (w : W) :
  fetch_scheduled opts w -> one_fetch_pending opts w.
Proof.
  intros [[_ H] | (Hf & id & Hid & Hs & Hp)]; [now left|].
  right. eexists. split; [exact Hp|]. simpl. auto.
Qed.

Lemma debounce_one (Func Ctx : Type) (func : Func) (timeout : nat)
    (context : Ctx) (e : debounce_env Func Ctx) :
  Timers.pending (timers e) = [] \/
  (exists t, Timers.pending (timers e) = [t] /\
             timeoutId e = Some (Timers.t_id t)) ->
  debounce func timeout context e
  = (Timers.next_id (timers e),
     {| timeoutId := Some (Timers.next_id (timers e));
        timers :=
          {| Timers.now := Timers.now (timers e);
             Timers.next_id := S (Timers.next_id (timers e));
             Timers.pending :=
               [{| Timers.t_id := Timers.next_id (timers e);
                   Timers.t_due := Timers.now (timers e) + timeout;
                   Timers.t_task := {| cb_func := func;
                                       cb_context := context |} |}] |} |}).
Proof.
  intros [Hp | (t & Hp & Hid)].
  - unfold debounce, Timers.setTimeout.
    destruct (timeoutId e); simpl; rewrite Hp; reflexivity.
  - now apply debounce_supersedes with (t := t).
Qed.

(** After a view update a fetch is scheduled for the current state, if it
    is fetchable, and for nothing else; the state, the requests and the
    view are as before. *)
Lemma update_scheduled (w : W) :
  typed (getState w) ->
  one_timer w ->
  fetch_scheduled opts (update opts w) /\
  view (update opts w) = view w /\
  requests (update opts w) = requests w.
Proof.
  intros Ht H1.
  destruct (fetchable_dec (getState w)) as [Hf | Hn].
  - rewrite (update_fetchable w Hf).
    rewrite (debounce_one _ _ (getState w) (delay opts) tt (js w)).
    + split; [|split; reflexivity]. right. split; [exact Hf|].
      eexists. repeat split.
    + destruct H1 as [Hp | (t & Hp & Hid & _)]; [now left | right; eauto].
  - rewrite (update_not_fetchable w Ht Hn).
    split; [|split; reflexivity]. left. split; [exact Hn|].
    simpl. apply clearTimeout_one.
    destruct H1 as [Hp | (t & Hp & _ & Hs)]; [now left | right; eauto].
Qed.

Lemma elapse_none (Task : Type) (dt : nat) (rt : Timers.runtime Task) :
  Timers.pending rt = [] ->
  Timers.elapse dt rt
  = ([], {| Timers.now := Timers.now rt + dt;
            Timers.next_id := Timers.next_id rt;
            Timers.pending := [] |}).
Proof. intros Hp. unfold Timers.elapse. rewrite Hp. reflexivity. Qed.

(** A view update after the editor has put a new plugin state, one that
    [apply] made, into the view. *)
Lemma update_after_apply (v : EditorView Attrs) (w : W) :
  typed (view_pluginState v) ->
  plugin_inv opts w ->
  plugin_inv opts (update opts (set_view v w)) /\
  fetch_scheduled opts (update opts (set_view v w)) /\
  view (update opts (set_view v w)) = v /\
  requests (update opts (set_view v w)) = requests w.
Proof.
  intros Hv (Ht & H1 & Hrq).
  assert (H11 : one_timer (set_view v w))
    by (apply one_fetch_pending_one_timer in H1; exact H1).
  destruct (update_scheduled (set_view v w) Hv H11) as (Hs & Hview & Hr).
  split; [|split; [exact Hs | split; [exact Hview | exact Hr]]].
  split; [|split].
  - unfold getState. rewrite Hview. exact Hv.
  - now apply fetch_scheduled_one_fetch_pending.
  - rewrite Hr. exact Hrq.
Qed.

Lemma handleKeyDown_inv (keyCode : N) (w : W) :
  plugin_inv opts w -> plugin_inv opts (snd (handleKeyDown opts keyCode w)).
Proof.
  intros Hinv. pose proof Hinv as (Ht & H1 & Hrq). unfold handleKeyDown.
  destruct (active (getState w)); simpl; [|exact Hinv].
  destruct (N.eqb keyCode 40); simpl; [exact Hinv|].
  destruct (N.eqb keyCode 38); simpl; [exact Hinv|].
  destruct (N.eqb keyCode 13); simpl.
  - unfold select. destruct (getCurItemAttrsForSelect _ _); [|exact Hinv].
    unfold dispatch. apply update_after_apply; [apply apply_typed | exact Hinv].
  - destruct (N.eqb keyCode 27); simpl; [|exact Hinv].
    split; [exact Ht|]. split; [|exact Hrq]. left.
    simpl. apply clearTimeout_one.
    destruct H1 as [Hp | (t & Hp & _ & Hs & _)]; [now left | right; eauto].
Qed.

Lemma callWhenDone_frame (rq : Request)
    (suggestionItems : option (list SuggestionItem)) (w : W) :
  let w' := callWhenDone opts rq suggestionItems w in
  view w' = view w /\ js w' = js w /\ requests w' = requests w /\
  showListTimeoutId w' = showListTimeoutId w.
Proof.
  unfold callWhenDone, showList.
  destruct (view_textDOM (view w)); [|auto].
  destruct (elAddedToBody w); simpl; auto.
Qed.

Lemma step_elapse (dt : nat) (w : W) :
  step opts (EvElapse dt) w
  = fold_left (fun w' t => fetch (cb_func (Timers.t_task t)) w')
      (fst (Timers.elapse dt (timers (js w))))
      (set_js {| timeoutId := timeoutId (js w);
                 timers := snd (Timers.elapse dt (timers (js w))) |} w).
Proof.
  unfold step. destruct (Timers.elapse dt (timers (js w))). reflexivity.
Qed.

Lemma step_inv (ev : event SuggestionItem) (w : W) :
  plugin_inv opts w -> plugin_inv opts (step opts ev w).
Proof.
  intros (Ht & H1 & Hrq). destruct ev as [sel dom | k | dt | n items].
  - (* a transaction *)
    change (step opts (EvTransaction sel dom) w)
      with (update opts
              (set_view {| view_pluginState :=
                             apply opts sel (view_pluginState (view w));
                           view_selection := sel;
                           view_textDOM := dom;
                           view_dispatched := view_dispatched (view w) |} w)).
    apply update_after_apply; [apply apply_typed | repeat split; assumption].
  - (* a key *)
    change (step opts (EvKeyDown k) w) with (snd (handleKeyDown opts k w)).
    apply handleKeyDown_inv. repeat split; assumption.
  - (* time passes *)
    rewrite step_elapse.
    destruct H1 as [Hp | (t & Hp & Hid & Hs & Hc & Hf)].
    + rewrite (elapse_none _ dt _ Hp). simpl.
      split; [exact Ht|]. split; [now left | exact Hrq].
    + destruct (Nat.leb_spec (Timers.t_due t) (Timers.now (timers (js w)) + dt)).
      * rewrite (elapse_due dt _ t Hp) by assumption. simpl.
        split; [exact Ht|]. split; [now left|].
        apply Forall_app. split; [exact Hrq|]. constructor; [|constructor].
        rewrite Hc. split; [reflexivity | exact Hf].
      * rewrite (elapse_not_due dt _ t Hp) by assumption. simpl.
        split; [exact Ht|]. split; [|exact Hrq].
        right. exists t. auto.
  - (* an answer *)
    simpl step. destruct (requests w !! n) as [rq|]; [|repeat split; auto].
    destruct (callWhenDone_frame rq items w) as (Hv & Hj & Hr & Hs).
    unfold plugin_inv, one_fetch_pending, getState.
    rewrite Hv, Hj, Hr, Hs. repeat split; auto.
Qed.

Lemma world0_inv : plugin_inv opts (world0 opts).
Proof.
  split; [|split].
  - intros H. discriminate H.
  - now left.
  - constructor.
Qed.

Lemma steps_inv (evs : list (event SuggestionItem)) (w : W) :
  plugin_inv opts w -> plugin_inv opts (steps opts evs w).
Proof.
  revert w. induction evs as [|ev evs IH]; intros w Hw; [exact Hw|].
  apply (IH (step opts ev w)). now apply step_inv.
Qed.

Lemma reachable_inv (w : W) : reachable opts w -> plugin_inv opts w.
Proof. intros (evs & ->). apply steps_inv, world0_inv. Qed.

Lemma reachable_step (ev : event SuggestionItem) (w : W) :
  reachable opts w -> reachable opts (step opts ev w).
Proof.
  intros (evs & ->). exists (evs ++ [ev]). unfold steps.
  now rewrite fold_left_app.
Qed.

End PluginMore.

Section PluginTimeline.
Context {DropdownEl SuggestionItem Attrs : Type}.
Variable opts : Opts DropdownEl SuggestionItem Attrs.

Local Abbreviation W := (World DropdownEl Attrs).

Lemma falsy_text_false (t : option jsstring) :
  falsy_text t = false -> exists c q, t = Some (c :: q).
Proof. destruct t as [[|c q]|]; simpl; intros H; try discriminate; eauto. Qed.

Lemma step_transaction (selection : Selection) (textDOM : option TextDOM)
    (w : W) :
  step opts (EvTransaction selection textDOM) w
  = update opts
      (set_view {| view_pluginState :=
                     apply opts selection (view_pluginState (view w));
                   view_selection := selection;
                   view_textDOM := textDOM;
                   view_dispatched := view_dispatched (view w) |} w).
Proof. reflexivity. Qed.

(** The requests after a transaction and a stretch of time: the fetch for
    the new state goes out when [delay] has passed, not before. *)
Lemma requests_after_transaction (selection : Selection)
    (textDOM : option TextDOM) (dt : nat) (w : W) :
  plugin_inv opts w ->
  let w1 := step opts (EvTransaction selection textDOM) w in
  getState w1 = apply opts selection (getState w) /\
  requests w1 = requests w /\
  fetch_scheduled opts w1 /\
  (fetchable opts (getState w1) -> delay opts <= dt ->
   requests (step opts (EvElapse dt) w1)
   = requests w ++ [request_of (getState w1)]) /\
  (~ fetchable opts (getState w1) \/ dt < delay opts ->
   requests (step opts (EvElapse dt) w1) = requests w /\
   Timers.pending (timers (js (step opts (EvElapse dt) w1)))
   = Timers.pending (timers (js w1))).
Proof.
  intros (Ht & H1 & Hrq) w1. subst w1. rewrite step_transaction.
  set (w0 := set_view _ w).
  assert (Ht0 : typed (getState w0)) by apply apply_typed.
  assert (H10 : one_timer w0)
    by (apply one_fetch_pending_one_timer in H1; exact H1).
  destruct (update_scheduled opts w0 Ht0 H10) as (Hs & Hv & Hr).
  assert (Hg : getState (update opts w0) = apply opts selection (getState w)).
  { unfold getState at 1. rewrite Hv. reflexivity. }
  split; [exact Hg|]. split; [exact Hr|]. split; [exact Hs|].
  rewrite step_elapse.
  destruct Hs as [[Hn Hp] | (Hf & id & _ & _ & Hp)].
  - split; [intros Hf; contradiction|]. intros _.
    rewrite (elapse_none _ dt _ Hp). simpl. rewrite Hp. auto.
  - split.
    + intros _ Hle.
      rewrite (elapse_due dt _ _ Hp) by (simpl; lia). simpl.
      now rewrite Hr.
    + intros [Hn | Hlt]; [contradiction|].
      rewrite (elapse_not_due dt _ _ Hp) by (simpl; lia). simpl.
      rewrite Hp. auto.
Qed.

End PluginTimeline.

Section PluginHelpers.
Context {DropdownEl SuggestionItem Attrs : Type}.
Variable opts : Opts DropdownEl SuggestionItem Attrs.

Lemma apply_ignores_state (selection : Selection) (s1 s2 : SuggestionState) :
  apply opts selection s1 = apply opts selection s2.
Proof. reflexivity. Qed.

Lemma apply_active_fetchable (selection : Selection) (state : SuggestionState) :
  active (apply opts selection state) = true ->
  fetchable opts (apply opts selection state).
Proof.
  intros Ha. split; [exact Ha|]. split; [now apply apply_typed|].
  intros Hreq.
  destruct (apply_cases opts selection state) as [[E _] | (m & _ & Hm & E)];
    rewrite E in Ha |- *; [discriminate Ha|].
  simpl.
  pose proof (getMatch_inv _ _ _ Hm)
    as (_ & _ & _ & q & _ & _ & _ & _ & _ & Hq & Hcase).
  rewrite Hq.
  destruct Hcase as [[_ (a & sp & b & -> & _ & Hne & _)] | [_ [Hne _]]].
  - specialize (Hne Hreq). destruct a; [congruence | reflexivity].
  - destruct q; [congruence | reflexivity].
Qed.

Lemma result_of_bounds (start : Z) (m : match_array) (ty : token_type) :
  (start + Z.of_nat (index m) <= from (m_range (result_of start m ty)))%Z /\
  (from (m_range (result_of start m ty))
   <= to (m_range (result_of start m ty)))%Z /\
  (to (m_range (result_of start m ty))
   = start + Z.of_nat (index m) + Z.of_nat (length (whole m)))%Z.
Proof.
  unfold result_of, startsWith_space, substring1.
  destruct (whole m) as [|c w]; cbn [m_range from to].
  - cbn [length]. lia.
  - destruct (N.eqb c 32); cbn [drop length]; rewrite ?Nat2Z.inj_add;
      rewrite ?drop_0; lia.
Qed.

End PluginHelpers.

(** X8: For triggers that hold no pattern metacharacter, a state that
    [apply] makes active is one for which [update] schedules a fetch: its
    type is that of a trigger, and when [requireText] is on its text is not
    empty, so the test of the text in [update] never hides the dropdown of
    such a state. *)
Theorem apply_active_is_fetchable {DropdownEl SuggestionItem Attrs : Type}
    (opts : Opts DropdownEl SuggestionItem Attrs)
    (selection : Selection) (state : SuggestionState) :
  literal_triggers (triggers opts) ->
  active (apply opts selection state) = true ->
  let s := apply opts selection state in
  (type s = type_mention \/ type s = type_tag) /\
  (requireText (triggers opts) = true -> exists c q, text s = Some (c :: q)) /\
  (active s = false
   \/ (requireText (triggers opts) = true /\ falsy_text (text s) = true)
   -> False).
Proof.
  intros _ Ha s. destruct (apply_active_fetchable opts selection state Ha)
    as (_ & Hty & Hreq).
  split; [exact Hty|]. split.
  - intros H. apply falsy_text_false. now apply Hreq.
  - intros [H | [H1 H2]]; [subst s; congruence|].
    specialize (Hreq H1). subst s. congruence.
Qed.

Lemma apply_active_is_fetchable_witness :
  let s := apply scenario_opts (caret_after "hi @bob") getNewState in
  literal_triggers (triggers scenario_opts) /\
  active s = true /\ type s = type_mention /\ text s = Some (u16 "bob").
Proof.
  intros s.
  assert (H0 : literal_triggers (triggers scenario_opts))
    by (split; repeat constructor).
  assert (Ha : active s = true) by (vm_compute; reflexivity).
  split; [exact H0|].
  destruct (apply_active_is_fetchable scenario_opts
              (caret_after "hi @bob") getNewState H0 Ha) as ([Hty | Hty] & _).
  - split; [exact Ha|]. split; [exact Hty | reflexivity].
  - vm_compute in Hty. discriminate Hty.
Defined.

(** X6: For triggers that hold no pattern metacharacter, [apply] makes the
    state active exactly when the selection is a caret and the text before
    it ends in a trigger with a query text of its pattern; the state before
    plays no part. *)
Theorem apply_active_iff {DropdownEl SuggestionItem Attrs : Type}
    (opts : Opts DropdownEl SuggestionItem Attrs)
    (selection : Selection) (state : SuggestionState) :
  literal_triggers (triggers opts) ->
  active (apply opts selection state) = true <->
  sel_from selection = sel_to selection /\
  ((exists q, ends_in_trigger (mentionTrigger (triggers opts))
                (mention_query (triggers opts))
                (rp_text (sel_rfrom selection)) q) \/
   (exists q, ends_in_trigger (hashtagTrigger (triggers opts)) tag_query
                (rp_text (sel_rfrom selection)) q)).
Proof.
  intros _. rewrite <- getMatch_is_Some.
  destruct (apply_cases opts selection state)
    as [[-> Hwhy] | (m & Heq & Hm & ->)]; simpl.
  - split; [discriminate|]. intros [Heq Hs].
    destruct Hwhy as [Hne | Hnone]; [contradiction | congruence].
  - split; [|reflexivity]. intros _. split; [exact Heq | congruence].
Qed.

Lemma apply_active_iff_witness :
  literal_triggers (triggers scenario_opts) /\
  (active (apply scenario_opts (caret_after "hi @bob") getNewState) = true <->
   sel_from (caret_after "hi @bob") = sel_to (caret_after "hi @bob") /\
   ((exists q, ends_in_trigger (mentionTrigger (triggers scenario_opts))
                 (mention_query (triggers scenario_opts))
                 (rp_text (sel_rfrom (caret_after "hi @bob"))) q) \/
    (exists q, ends_in_trigger (hashtagTrigger (triggers scenario_opts))
                 tag_query
                 (rp_text (sel_rfrom (caret_after "hi @bob"))) q))).
Proof.
  assert (H0 : literal_triggers (triggers scenario_opts))
    by (split; repeat constructor).
  split; [exact H0|].
  exact (apply_active_iff scenario_opts (caret_after "hi @bob") getNewState
           H0).
Defined.

(** X7: For triggers that hold no pattern metacharacter, the range of an
    active state that [apply] makes starts at or after the
    start of the parent node, is not reversed, and ends where the text
    before the cursor ends. *)
Theorem apply_range_in_text {DropdownEl SuggestionItem Attrs : Type}
    (opts : Opts DropdownEl SuggestionItem Attrs)
    (selection : Selection) (state : SuggestionState) :
  literal_triggers (triggers opts) ->
  active (apply opts selection state) = true ->
  let s := apply opts selection state in
  let position := sel_rfrom selection in
  (rp_start position <= from (range s))%Z /\
  (from (range s) <= to (range s))%Z /\
  (to (range s)
   = rp_start position + Z.of_nat (length (rp_text position)))%Z.
Proof.
  intros _ Ha s position. subst s position.
  destruct (apply_cases opts selection state) as [[E _] | (m & _ & Hm & E)];
    rewrite E in Ha |- *; [discriminate Ha|].
  cbn [range].
  apply getMatch_inv in Hm
    as (ma & pre & g & q & Htext & _ & Hi & Hw & Hr & _).
  destruct (result_of_bounds (rp_start (sel_rfrom selection)) ma (m_type m))
    as (H1 & H2 & H3).
  rewrite Hr. split; [lia|]. split; [exact H2|].
  rewrite H3, Hi, Hw, Htext, (length_app pre). lia.
Qed.

Lemma apply_range_in_text_witness :
  let s := apply scenario_opts
             {| sel_from := 17; sel_to := 17;
                sel_rfrom := {| rp_start := 10; rp_text := u16 "hi @bob" |} |}
             getNewState in
  literal_triggers (triggers scenario_opts) /\
  active s = true /\
  (10 <= from (range s))%Z /\
  (from (range s) <= to (range s))%Z /\
  (to (range s) = 17)%Z.
Proof.
  intros s.
  assert (H0 : literal_triggers (triggers scenario_opts))
    by (split; repeat constructor).
  assert (Ha : active s = true) by (vm_compute; reflexivity).
  split; [exact H0|]. split; [exact Ha|].
  exact (apply_range_in_text scenario_opts _ getNewState H0 Ha).
Defined.

(** X12: In every world the plugin gets into, at most one timer of a debounced
    fetch is pending; it is the one [showListTimeoutId] names, and its
    function closes over the current plugin state, which is active. *)
Theorem pending_fetch_is_for_current_state
    {DropdownEl SuggestionItem Attrs : Type}
    (opts : Opts DropdownEl SuggestionItem Attrs)
    (w : World DropdownEl Attrs) :
  reachable opts w ->
  length (Timers.pending (timers (js w))) <= 1 /\
  forall t,
    In t (Timers.pending (timers (js w))) ->
    showListTimeoutId w = Some (Timers.t_id t) /\
    cb_func (Timers.t_task t) = getState w /\
    active (getState w) = true.
Proof.
  intros Hr. apply reachable_inv in Hr as (_ & H1 & _).
  destruct H1 as [Hp | (t & Hp & _ & Hs & Hc & Ha & _)]; rewrite Hp.
  - split; [simpl; lia | intros t []].
  - split; [simpl; lia|]. intros t' [<- | []]. auto.
Qed.

Lemma pending_fetch_is_for_current_state_witness :
  let w := steps scenario_opts
             [EvTransaction (caret_after "@al") (Some span_rect);
              EvElapse 100;
              EvTransaction (caret_after "@ali") (Some span_rect)]
             (world0 scenario_opts) in
  map (fun t => text (cb_func (Timers.t_task t)))
      (Timers.pending (timers (js w))) = [Some (u16 "ali")] /\
  length (Timers.pending (timers (js w))) <= 1.
Proof.
  intros w. split; [vm_compute; reflexivity|].
  assert (Hr : reachable scenario_opts w) by (eexists; reflexivity).
  exact (proj1 (pending_fetch_is_for_current_state scenario_opts w Hr)).
Defined.

(** X13: Every request the plugin makes to [getSuggestions] is for an active
    state: its type is mention or tag, type and text are those of the
    state its [callWhenDone] closes over, and the text is not empty when
    [requireText] is on. *)
Theorem requests_are_for_active_states
    {DropdownEl SuggestionItem Attrs : Type}
    (opts : Opts DropdownEl SuggestionItem Attrs)
    (w : World DropdownEl Attrs) (rq : Request) :
  reachable opts w ->
  In rq (requests w) ->
  active (rq_state rq) = true /\
  rq_type rq = type (rq_state rq) /\
  rq_text rq = text (rq_state rq) /\
  (rq_type rq = type_mention \/ rq_type rq = type_tag) /\
  (requireText (triggers opts) = true -> exists c q, rq_text rq = Some (c :: q)).
Proof.
  intros Hr Hin. apply reachable_inv in Hr as (_ & _ & Hrq).
  rewrite Forall_forall in Hrq.
  assert (Hin' : rq ∈ requests w) by (apply list_elem_of_In; exact Hin).
  destruct (Hrq rq Hin') as (E & Ha & Hty & Hreq).
  assert (E1 : rq_type rq = type (rq_state rq))
    by (rewrite E at 1; reflexivity).
  assert (E2 : rq_text rq = text (rq_state rq))
    by (rewrite E at 1; reflexivity).
  rewrite E1, E2. repeat split; auto.
  intros H. apply falsy_text_false. now apply Hreq.
Qed.

Lemma requests_are_for_active_states_witness :
  let w := steps scenario_opts two_fetches (world0 scenario_opts) in
  let rq := {| rq_type := type_mention; rq_text := Some (u16 "ali");
               rq_state := {| active := true;
                              range := {| from := 0; to := 4 |};
                              type := type_mention;
                              text := Some (u16 "ali") |} |} in
  In rq (requests w) /\ active (rq_state rq) = true.
Proof.
  intros w rq.
  assert (Hr : reachable scenario_opts w) by (eexists; reflexivity).
  assert (Hin : In rq (requests w)) by (vm_compute; auto).
  split; [exact Hin|].
  exact (proj1 (requests_are_for_active_states scenario_opts w rq Hr Hin)).
Defined.

(** X14: A transaction that leaves the state inactive cancels the pending fetch
    and hides the dropdown: no timer is pending after it, and no request
    goes out however much time passes. *)
Theorem inactive_transaction_cancels_fetch
    {DropdownEl SuggestionItem Attrs : Type}
    (opts : Opts DropdownEl SuggestionItem Attrs)
    (w : World DropdownEl Attrs) (selection : Selection)
    (textDOM : option TextDOM) (dt : nat) :
  reachable opts w ->
  active (apply opts selection (getState w)) = false ->
  let w' := step opts (EvTransaction selection textDOM) w in
  Timers.pending (timers (js w')) = [] /\
  st_display (style (el w')) = display_none /\
  requests (step opts (EvElapse dt) w') = requests w.
Proof.
  intros Hr Hina w'. pose proof (reachable_inv opts w Hr) as Hinv.
  destruct (requests_after_transaction opts selection textDOM dt w Hinv)
    as (Hg & Hrq & Hs & _ & Hno).
  fold w' in Hg, Hrq, Hs, Hno.
  assert (Hn : ~ fetchable opts (getState w')).
  { rewrite Hg. intros (Ha & _). congruence. }
  split; [|split].
  - destruct Hs as [[_ Hp] | [Hf _]]; [exact Hp | contradiction].
  - subst w'. rewrite step_transaction. set (w0 := set_view _ w).
    assert (Ht0 : typed (getState w0)) by apply apply_typed.
    assert (Hn0 : ~ fetchable opts (getState w0)).
    { intros (Ha & _). unfold w0, getState in Ha. simpl in Ha.
      unfold getState in Hina. congruence. }
    rewrite (update_not_fetchable opts w0 Ht0 Hn0). reflexivity.
  - apply Hno. now left.
Qed.

Lemma inactive_transaction_cancels_fetch_witness :
  let w := steps scenario_opts
             [EvTransaction (caret_after "@al") (Some span_rect)]
             (world0 scenario_opts) in
  let w' := step scenario_opts (EvTransaction (caret_after "@al!") None) w in
  length (Timers.pending (timers (js w))) = 1 /\
  Timers.pending (timers (js w')) = [] /\
  st_display (style (el w')) = display_none /\
  requests (step scenario_opts (EvElapse 500) w') = requests w.
Proof.
  intros w w'. split; [reflexivity|].
  assert (Hr : reachable scenario_opts w) by (eexists; reflexivity).
  exact (inactive_transaction_cancels_fetch scenario_opts w
           (caret_after "@al!") None 500 Hr eq_refl).
Defined.

(** X15: For triggers that hold no pattern metacharacter: after a
    transaction that makes the state active, the request for the new state
    goes out when [delay] has passed, and not before; it is the only one
    that goes out. *)
Theorem fetch_goes_out_after_delay
    {DropdownEl SuggestionItem Attrs : Type}
    (opts : Opts DropdownEl SuggestionItem Attrs)
    (w : World DropdownEl Attrs) (selection : Selection)
    (textDOM : option TextDOM) (dt : nat) :
  literal_triggers (triggers opts) ->
  reachable opts w ->
  active (apply opts selection (getState w)) = true ->
  let w' := step opts (EvTransaction selection textDOM) w in
  requests w' = requests w /\
  requests (step opts (EvElapse dt) w')
  = if delay opts <=? dt
    then requests w ++ [request_of (apply opts selection (getState w))]
    else requests w.
Proof.
  intros _ Hr Ha w'. pose proof (reachable_inv opts w Hr) as Hinv.
  destruct (requests_after_transaction opts selection textDOM dt w Hinv)
    as (Hg & Hrq & _ & Hyes & Hno).
  fold w' in Hg, Hrq, Hyes, Hno. split; [exact Hrq|].
  destruct (Nat.leb_spec (delay opts) dt).
  - rewrite <- Hg. apply Hyes; [|assumption].
    rewrite Hg. now apply apply_active_fetchable.
  - apply Hno. now right.
Qed.

Lemma fetch_goes_out_after_delay_witness :
  let w := world0 scenario_opts in
  let w' := step scenario_opts
              (EvTransaction (caret_after "@al") (Some span_rect)) w in
  requests (step scenario_opts (EvElapse 499) w') = [] /\
  map rq_text (requests (step scenario_opts (EvElapse 500) w'))
  = [Some (u16 "al")].
Proof.
  intros w w'.
  assert (H0 : literal_triggers (triggers scenario_opts))
    by (split; repeat constructor).
  assert (Hr : reachable scenario_opts w) by (exists []; reflexivity).
  split.
  - exact (proj2 (fetch_goes_out_after_delay scenario_opts w
                    (caret_after "@al") (Some span_rect) 499 H0 Hr eq_refl)).
  - exact (f_equal (map rq_text)
             (proj2 (fetch_goes_out_after_delay scenario_opts w
                       (caret_after "@al") (Some span_rect) 500 H0 Hr
                       eq_refl))).
Defined.

(** X16: For triggers that hold no pattern metacharacter: a transaction
    less than [delay] after the one before it supersedes its fetch: of the
    two only the request for the later state goes out. *)
Theorem later_transaction_supersedes_fetch
    {DropdownEl SuggestionItem Attrs : Type}
    (opts : Opts DropdownEl SuggestionItem Attrs)
    (w : World DropdownEl Attrs) (selection1 selection2 : Selection)
    (textDOM1 textDOM2 : option TextDOM) (dt1 dt2 : nat) :
  literal_triggers (triggers opts) ->
  reachable opts w ->
  dt1 < delay opts ->
  delay opts <= dt2 ->
  active (apply opts selection2 (getState w)) = true ->
  requests (steps opts [EvTransaction selection1 textDOM1; EvElapse dt1;
                        EvTransaction selection2 textDOM2; EvElapse dt2] w)
  = requests w ++ [request_of (apply opts selection2 (getState w))].
Proof.
  intros _ Hr Hlt Hle Ha. pose proof (reachable_inv opts w Hr) as Hinv.
  change (steps opts _ w)
    with (step opts (EvElapse dt2)
            (step opts (EvTransaction selection2 textDOM2)
               (step opts (EvElapse dt1)
                  (step opts (EvTransaction selection1 textDOM1) w)))).
  destruct (requests_after_transaction opts selection1 textDOM1 dt1 w Hinv)
    as (_ & _ & _ & _ & Hno).
  destruct (Hno (or_intror Hlt)) as [Hrq1 _].
  set (w2 := step opts (EvElapse dt1) _) in *.
  assert (Hinv2 : plugin_inv opts w2) by (subst w2; now do 2 apply step_inv).
  destruct (requests_after_transaction opts selection2 textDOM2 dt2 w2 Hinv2)
    as (Hg & _ & _ & Hyes & _).
  rewrite Hyes; [|rewrite Hg; now apply apply_active_fetchable | exact Hle].
  rewrite Hrq1, Hg. reflexivity.
Qed.

Lemma later_transaction_supersedes_fetch_witness :
  map rq_text
      (requests (steps scenario_opts
                   [EvTransaction (caret_after "@al") (Some span_rect);
                    EvElapse 499;
                    EvTransaction (caret_after "@ali") (Some span_rect);
                    EvElapse 500]
                   (world0 scenario_opts)))
  = [Some (u16 "ali")].
Proof.
  assert (Hr : reachable scenario_opts (world0 scenario_opts))
    by (exists []; reflexivity).
  assert (H0 : literal_triggers (triggers scenario_opts))
    by (split; repeat constructor).
  assert (H1 : 499 < delay scenario_opts) by (simpl; lia).
  assert (H2 : delay scenario_opts <= 500) by (simpl; lia).
  exact (f_equal (map rq_text)
           (later_transaction_supersedes_fetch scenario_opts
              (world0 scenario_opts) (caret_after "@al") (caret_after "@ali")
              (Some span_rect) (Some span_rect) 499 500 H0 Hr H1 H2 eq_refl)).
Defined.

Section UpdateFrame.
Context {DropdownEl SuggestionItem Attrs : Type}.
Variable opts : Opts DropdownEl SuggestionItem Attrs.

(** The view update makes no request and leaves the view as it is. *)
Lemma update_frame (w : World DropdownEl Attrs) :
  requests (update opts w) = requests w /\ view (update opts w) = view w.
Proof.
  unfold update. destruct (negb (active (getState w)) || _); [auto|].
  destruct (debounce (getState w) (delay opts) tt (js w)). auto.
Qed.

End UpdateFrame.

(** X9: [handleKeyDown] consumes a key exactly when the state is active and the
    key is ArrowDown, ArrowUp, Enter or Escape; a key it does not consume
    changes nothing; no key makes a request, and no key but Enter touches
    the view or the plugin state in it. *)
Theorem handleKeyDown_consumes_handled_keys
    {DropdownEl SuggestionItem Attrs : Type}
    (opts : Opts DropdownEl SuggestionItem Attrs)
    (keyCode : N) (w : World DropdownEl Attrs) :
  let consumed := fst (handleKeyDown opts keyCode w) in
  let w' := snd (handleKeyDown opts keyCode w) in
  consumed = active (getState w) && handled_key keyCode /\
  (consumed = false -> w' = w) /\
  requests w' = requests w /\
  (keyCode <> 13%N -> view w' = view w).
Proof.
  unfold handleKeyDown, handled_key.
  destruct (active (getState w)); simpl; [|repeat split; auto].
  destruct (N.eqb_spec keyCode 40); simpl; [repeat split; auto; discriminate|].
  destruct (N.eqb_spec keyCode 38); simpl; [repeat split; auto; discriminate|].
  destruct (N.eqb_spec keyCode 13); simpl.
  - unfold select. destruct (getCurItemAttrsForSelect _ _); simpl.
    + unfold dispatch. rewrite (proj1 (update_frame opts _)).
      repeat split; auto; try discriminate; contradiction.
    + repeat split; auto; try discriminate; contradiction.
  - destruct (N.eqb_spec keyCode 27); simpl;
      repeat split; auto; discriminate.
Qed.

(** X10: Enter in an active state with a candidate highlighted is consumed
    and dispatches one transaction: it replaces the range that the
    decoration marks by a node of the type of the state with the attributes
    of the candidate.  No request is made. *)
Theorem enter_replaces_decorated_range
    {DropdownEl SuggestionItem Attrs : Type}
    (opts : Opts DropdownEl SuggestionItem Attrs)
    (w : World DropdownEl Attrs) (attrs : Attrs) :
  active (getState w) = true ->
  getCurItemAttrsForSelect opts (content (el w)) = Some attrs ->
  exists marked,
    decorations opts w = Some (marked, suggestionTextClass opts) /\
    fst (handleKeyDown opts 13 w) = true /\
    view_dispatched (view (snd (handleKeyDown opts 13 w)))
    = view_dispatched (view w) ++
      [{| tr_from := from marked; tr_to := to marked;
          tr_node_type := type (getState w);
          tr_node_attrs := attrs |}] /\
    requests (snd (handleKeyDown opts 13 w)) = requests w.
Proof.
  intros Ha Hc. exists (range (getState w)). split.
  - unfold decorations. now rewrite Ha.
  - unfold handleKeyDown, select, dispatch. rewrite Ha, Hc. simpl.
    split; [reflexivity|].
    destruct (update_frame opts
                (set_view
                   {| view_pluginState :=
                        apply opts
                          (replaced_selection
                             {| tr_from := from (range (getState w));
                                tr_to := to (range (getState w));
                                tr_node_type := type (getState w);
                                tr_node_attrs := attrs |}
                             (view_selection (view w)))
                          (view_pluginState (view w));
                      view_selection :=
                        replaced_selection
                          {| tr_from := from (range (getState w));
                             tr_to := to (range (getState w));
                             tr_node_type := type (getState w);
                             tr_node_attrs := attrs |}
                          (view_selection (view w));
                      view_textDOM :=
                        if active
                             (apply opts
                                (replaced_selection
                                   {| tr_from := from (range (getState w));
                                      tr_to := to (range (getState w));
                                      tr_node_type := type (getState w);
                                      tr_node_attrs := attrs |}
                                   (view_selection (view w)))
                                (view_pluginState (view w)))
                        then view_textDOM (view w) else None;
                      view_dispatched :=
                        view_dispatched (view w) ++
                        [{| tr_from := from (range (getState w));
                            tr_to := to (range (getState w));
                            tr_node_type := type (getState w);
                            tr_node_attrs := attrs |}] |} w))
      as [Hr Hv].
    split; [|exact Hr]. now rewrite Hv.
Qed.

Lemma enter_replaces_decorated_range_witness :
  let opts : Opts (option (list string)) string string :=
    {| triggers := defaultTriggers;
       createDropdownEl := None;
       showDropdownEl := fun _ suggestionItems => suggestionItems;
       hideDropdownEl := fun dropdownEl => dropdownEl;
       goNext := fun dropdownEl => dropdownEl;
       goPrev := fun dropdownEl => dropdownEl;
       getCurItemAttrsForSelect :=
         fun dropdownEl =>
           match dropdownEl with
           | Some (item :: _) => Some item
           | _ => None
           end;
       destroy := fun dropdownEl => dropdownEl;
       suggestionTextClass := "prosemirror-suggestion";
       delay := 500 |} in
  let w := steps opts
             [EvTransaction (caret_after "hi @al") (Some span_rect);
              EvElapse 500;
              EvResolve 0 (Some ["alice"%string])]
             (world0 opts) in
  view_dispatched (view (snd (handleKeyDown opts 13 w)))
  = [{| tr_from := 3; tr_to := 6; tr_node_type := type_mention;
        tr_node_attrs := "alice"%string |}].
Proof.
  intros opts w.
  destruct (enter_replaces_decorated_range opts w "alice"%string
              eq_refl eq_refl) as (marked & Hd & _ & Hk & _).
  rewrite Hk. vm_compute in Hd. injection Hd as <-. reflexivity.
Defined.

(** X11: Escape in an active state leaves no timer pending: the debounced fetch
    that was waiting never goes out, however much time passes. *)
Theorem escape_cancels_pending_fetch
    {DropdownEl SuggestionItem Attrs : Type}
    (opts : Opts DropdownEl SuggestionItem Attrs)
    (w : World DropdownEl Attrs) (dt : nat) :
  reachable opts w ->
  active (getState w) = true ->
  let w' := step opts (EvKeyDown 27) w in
  Timers.pending (timers (js w')) = [] /\
  requests (step opts (EvElapse dt) w') = requests w.
Proof.
  intros Hr Ha w'. apply reachable_inv in Hr as (_ & H1 & _).
  assert (Hp : Timers.pending (timers (js w')) = []).
  { subst w'. unfold step, handleKeyDown. rewrite Ha. simpl.
    apply clearTimeout_one.
    destruct H1 as [Hp | (t & Hp & _ & Hs & _)]; [now left | right; eauto]. }
  split; [exact Hp|].
  rewrite step_elapse, (elapse_none _ dt _ Hp). simpl.
  subst w'. unfold step, handleKeyDown. rewrite Ha. reflexivity.
Qed.

Lemma escape_cancels_pending_fetch_witness :
  let w := steps scenario_opts
             [EvTransaction (caret_after "@al") (Some span_rect)]
             (world0 scenario_opts) in
  let w' := step scenario_opts (EvKeyDown 27) w in
  length (requests (step scenario_opts (EvElapse 500) w)) = 1 /\
  Timers.pending (timers (js w')) = [] /\
  requests (step scenario_opts (EvElapse 500) w') = requests w.
Proof.
  intros w w'. split; [reflexivity|].
  assert (Hr : reachable scenario_opts w) by (eexists; reflexivity).
  exact (escape_cancels_pending_fetch scenario_opts w 500 Hr eq_refl).
Defined.

(* ===================================================================== *)
(** * More on [debounce] *)
(* ===================================================================== *)

Section DebounceMore.
Context {Func Ctx : Type}.
Variable context : Ctx.




End DebounceMore.



(* ===================================================================== *)
(** * The two patterns on one text *)
(* ===================================================================== *)

Section OnePattern.

Lemma app_mid_cases {A : Type} (a b : A) (p1 : list A) :
  forall p2 q1 q2,
    p1 ++ a :: q1 = p2 ++ b :: q2 ->
    (p1 = p2 /\ a = b /\ q1 = q2) \/ In b q1 \/ In a q2.
Proof.
  induction p1 as [|c p1 IH]; intros [|d p2] q1 q2 H; simpl in H.
  - injection H as -> ->. left. auto.
  - injection H as -> ->. right. left. apply in_or_app. right. now left.
  - injection H as -> <-. right. right. apply in_or_app. right. now left.
  - injection H as -> H. destruct (IH _ _ _ H) as [(-> & -> & ->) | Hor];
      [left | right]; auto.
Qed.

Lemma mention_query_chars (cfg : TriggerConfig) (q : jsstring) (c : N) :
  mention_query cfg q -> In c q ->
  is_mention_char c = true \/ is_space c = true.
Proof.
  intros (a & sp & b & -> & Ha & _ & Hsp) Hin.
  unfold all_in in *. rewrite Forall_forall in Ha.
  apply in_app_or in Hin as [Hin | Hin];
    [left; apply Ha; now apply list_elem_of_In|].
  apply in_app_or in Hin as [Hin | Hin].
  - destruct (allowSpace cfg).
    + destruct Hsp as [[-> | (s & -> & Hs)] _]; [destruct Hin|].
      destruct Hin as [<- | []]. now right.
    + destruct Hsp as [-> _]. destruct Hin.
  - destruct (allowSpace cfg).
    + destruct Hsp as [_ Hb]. rewrite Forall_forall in Hb.
      left. apply Hb. now apply list_elem_of_In.
    + destruct Hsp as [_ ->]. destruct Hin.
Qed.

Lemma tag_query_chars (q : jsstring) (c : N) :
  tag_query q -> In c q -> is_tag_char c = true.
Proof.
  intros [_ Hall] Hin. unfold all_in in Hall. rewrite Forall_forall in Hall.
  apply Hall. now apply list_elem_of_In.
Qed.

End OnePattern.

(** X5: The comment in [getMatch] has it that only one of the two matches is
    there.  So it is for triggers of one character each, neither of them a
    pattern metacharacter, when they differ, the hashtag trigger is neither
    whitespace nor a character of the mention class, and the mention
    trigger is no character of the tag class: then no text matches both
    patterns. *)
Theorem one_pattern_matches_at_most (cfg : TriggerConfig) (cm ch : N)
    (text : jsstring) :
  mentionTrigger cfg = [cm] ->
  hashtagTrigger cfg = [ch] ->
  is_syntax_char cm = false ->
  is_syntax_char ch = false ->
  cm <> ch ->
  is_mention_char ch = false ->
  is_space ch = false ->
  is_tag_char cm = false ->
  let regex := getRegexp (mentionTrigger cfg) (hashtagTrigger cfg)
                         (allowSpace cfg) (requireText cfg) in
  String_match text (re_mention regex) = None \/
  String_match text (re_tag regex) = None.
Proof.
  intros Hm Ht _ _ Hne Hch1 Hch2 Hcm regex. subst regex.
  rewrite getRegexp_mention, getRegexp_tag.
  destruct (String_match text (trigger_pattern (mentionTrigger cfg) _))
    as [mm|] eqn:Em; [|now left].
  destruct (String_match text (trigger_pattern (hashtagTrigger cfg) _))
    as [tm|] eqn:Et; [|now right].
  exfalso.
  assert (H1 : String_match text
                 (trigger_pattern (mentionTrigger cfg)
                    (mention_body (allowSpace cfg) (requireText cfg)))
               <> None) by congruence.
  assert (H2 : String_match text (trigger_pattern (hashtagTrigger cfg) tag_body)
               <> None) by congruence.
  apply (match_trigger_pattern_iff _ _ _ (reads_mention_body cfg)) in H1
    as (q1 & p1 & E1 & _ & Hq1).
  apply (match_trigger_pattern_iff _ _ _ reads_tag_body) in H2
    as (q2 & p2 & E2 & _ & Hq2).
  rewrite Hm in E1. rewrite Ht in E2. rewrite E1 in E2. simpl in E2.
  destruct (app_mid_cases cm ch p1 p2 q1 q2 E2)
    as [(_ & E & _) | [Hin | Hin]].
  - contradiction.
  - destruct (mention_query_chars cfg q1 ch Hq1 Hin); congruence.
  - pose proof (tag_query_chars q2 cm Hq2 Hin). congruence.
Qed.

Lemma one_pattern_matches_at_most_witness :
  let regex := getRegexp (u16 "@") (u16 "#") true false in
  String_match (u16 "see @ann #b") (re_mention regex) = None \/
  String_match (u16 "see @ann #b") (re_tag regex) = None.
Proof.
  assert (Hne : 64%N <> 35%N) by discriminate.
  exact (one_pattern_matches_at_most defaultTriggers 64 35
           (u16 "see @ann #b") eq_refl eq_refl eq_refl eq_refl Hne
           eq_refl eq_refl eq_refl).
Defined.

(* ===================================================================== *)
(** * More on the node specs *)
(* ===================================================================== *)

(** X19: The rule of the mention node takes exactly the [span] elements that
    carry both data attributes, and the attributes it reads are never
    [null]; so it is for the rule of the tag node and its one attribute. *)
Theorem parse_rules_read_present_attributes (dom : Schema.Element) :
  (forall p,
     Schema.mentionNode_parseDOM dom = Some p <->
     Schema.tagName dom = "span"%string /\
     exists did handle,
       Schema.attributes dom !! "data-mention-did"%string = Some did /\
       Schema.attributes dom !! "data-mention-handle"%string = Some handle /\
       p = {| Schema.parsed_did := Some did;
              Schema.parsed_handle := Some handle |}) /\
  (forall p,
     Schema.tagNode_parseDOM dom = Some p <->
     Schema.tagName dom = "span"%string /\
     exists tag,
       Schema.attributes dom !! "data-tag"%string = Some tag /\
       p = {| Schema.parsed_tag := Some tag |}).
Proof.
  split; intros p.
  - unfold Schema.mentionNode_parseDOM, Schema.mentionNode_tag,
      Schema.mentionNode_getAttrs, Schema.getAttribute.
    destruct (String.eqb_spec (Schema.tagName dom) "span") as [Hs | Hs];
      simpl.
    + destruct (Schema.attributes dom !! "data-mention-did"%string)
        as [d|] eqn:Ed;
        [rewrite bool_decide_eq_true_2 by eauto
        |rewrite bool_decide_eq_false_2 by (intros [? ?]; discriminate)];
        simpl.
      * destruct (Schema.attributes dom !! "data-mention-handle"%string)
          as [h|] eqn:Eh;
          [rewrite bool_decide_eq_true_2 by eauto
          |rewrite bool_decide_eq_false_2 by (intros [? ?]; discriminate)].
        -- split.
           ++ intros [= <-]. split; [exact Hs|]. eauto.
           ++ intros (_ & d' & h' & [= <-] & [= <-] & ->). reflexivity.
        -- split; [discriminate|].
           intros (_ & d' & h' & _ & H & _). discriminate H.
      * split; [discriminate|].
        intros (_ & d' & h' & H & _). discriminate H.
    + split; [discriminate | intros [H _]; contradiction].
  - unfold Schema.tagNode_parseDOM, Schema.tagNode_tag,
      Schema.tagNode_getAttrs, Schema.getAttribute.
    destruct (String.eqb_spec (Schema.tagName dom) "span") as [Hs | Hs];
      simpl.
    + destruct (Schema.attributes dom !! "data-tag"%string) as [t|] eqn:Et;
        [rewrite bool_decide_eq_true_2 by eauto
        |rewrite bool_decide_eq_false_2 by (intros [? ?]; discriminate)].
      * split.
        -- intros [= <-]. split; [exact Hs|]. eauto.
        -- intros (_ & t' & [= <-] & ->). reflexivity.
      * split; [discriminate|]. intros (_ & t' & H & _). discriminate H.
    + split; [discriminate | intros [H _]; contradiction].
Qed.

(** X20: The element of a mention node is not taken for a tag, nor that of a tag
    node for a mention: neither rule matches the element that the other
    node's [toDOM] gives. *)
Theorem node_rules_do_not_cross :
  (forall a : Schema.MentionAttrs,
     Schema.tagNode_parseDOM (Schema.renderSpec (Schema.mentionNode_toDOM a))
     = None) /\
  (forall t : Schema.TagAttrs,
     Schema.mentionNode_parseDOM (Schema.renderSpec (Schema.tagNode_toDOM t))
     = None).
Proof.
  split.
  - intros a.
    unfold Schema.tagNode_parseDOM, Schema.tagNode_tag, Schema.renderSpec,
      Schema.mentionNode_toDOM.
    cbn [Schema.attributes Schema.tagName Schema.spec_attrs Schema.spec_tag].
    rewrite !lookup_insert_ne by discriminate. rewrite lookup_empty.
    rewrite bool_decide_eq_false_2 by (intros [? ?]; discriminate).
    reflexivity.
  - intros t.
    unfold Schema.mentionNode_parseDOM, Schema.mentionNode_tag,
      Schema.renderSpec, Schema.tagNode_toDOM.
    cbn [Schema.attributes Schema.tagName Schema.spec_attrs Schema.spec_tag].
    rewrite !lookup_insert_ne by discriminate. rewrite lookup_empty.
    rewrite bool_decide_eq_false_2 by (intros [? ?]; discriminate).
    reflexivity.
Qed.

(* ===================================================================== *)
(** * The dropdown element *)
(* ===================================================================== *)

Section DropdownFacts.
Context {DropdownEl SuggestionItem Attrs : Type}.
Variable opts : Opts DropdownEl SuggestionItem Attrs.

Local Abbreviation W := (World DropdownEl Attrs).

Lemma fold_fetch_el (fired : list (Timers.timer
                                     (timer_callback SuggestionState unit)))
    (w : W) :
  el (fold_left (fun w' t => fetch (cb_func (Timers.t_task t)) w') fired w)
  = el w /\
  elAddedToBody
    (fold_left (fun w' t => fetch (cb_func (Timers.t_task t)) w') fired w)
  = elAddedToBody w.
Proof.
  revert w. induction fired as [|t fired IH]; intros w; [auto|].
  simpl fold_left. destruct (IH (fetch (cb_func (Timers.t_task t)) w)).
  split; etransitivity; eauto.
Qed.

Lemma update_dropdown (w : W) :
  dropdown_inv w -> dropdown_inv (update opts w).
Proof.
  intros [H1 H2]. unfold update.
  destruct (negb (active (getState w)) || _).
  - split; simpl; [exact H1 | discriminate].
  - destruct (debounce (getState w) (delay opts) tt (js w)).
    split; simpl; assumption.
Qed.

Lemma step_dropdown (ev : event SuggestionItem) (w : W) :
  dropdown_inv w -> dropdown_inv (step opts ev w).
Proof.
  intros [H1 H2]. destruct ev as [sel dom | k | dt | n items].
  - rewrite step_transaction. apply update_dropdown. split; assumption.
  - change (step opts (EvKeyDown k) w) with (snd (handleKeyDown opts k w)).
    unfold handleKeyDown.
    destruct (active (getState w)); simpl; [|split; assumption].
    destruct (N.eqb k 40); simpl; [split; assumption|].
    destruct (N.eqb k 38); simpl; [split; assumption|].
    destruct (N.eqb k 13); simpl.
    + unfold select. destruct (getCurItemAttrsForSelect _ _);
        [|split; assumption].
      unfold dispatch. apply update_dropdown. split; assumption.
    + destruct (N.eqb k 27); simpl; [|split; assumption].
      split; simpl; [exact H1 | discriminate].
  - rewrite step_elapse. unfold dropdown_inv.
    destruct (fold_fetch_el (fst (Timers.elapse dt (timers (js w))))
                (set_js {| timeoutId := timeoutId (js w);
                           timers := snd (Timers.elapse dt (timers (js w))) |}
                        w)) as [-> ->].
    split; assumption.
  - simpl step. destruct (requests w !! n) as [rq|]; [|split; assumption].
    unfold callWhenDone, showList.
    destruct (view_textDOM (view w)); [|split; assumption].
    destruct (elAddedToBody w) eqn:E; split; simpl; auto.
    congruence.
Qed.

Lemma steps_dropdown (evs : list (event SuggestionItem)) (w : W) :
  dropdown_inv w -> dropdown_inv (steps opts evs w).
Proof.
  revert w. induction evs as [|ev evs IH]; intros w Hw; [exact Hw|].
  apply (IH (step opts ev w)). now apply step_dropdown.
Qed.

End DropdownFacts.

(** X18: While the view lives, the dropdown element is in the document exactly
    when [elAddedToBody] is set, and it is never displayed before it has
    been put into the document. *)
Theorem dropdown_is_displayed_in_document
    {DropdownEl SuggestionItem Attrs : Type}
    (opts : Opts DropdownEl SuggestionItem Attrs)
    (w : World DropdownEl Attrs) :
  reachable opts w ->
  in_document (el w) = elAddedToBody w /\
  (st_display (style (el w)) = display_block -> in_document (el w) = true).
Proof.
  intros (evs & ->). apply steps_dropdown. split; [reflexivity|].
  simpl. discriminate.
Qed.

Lemma dropdown_is_displayed_in_document_witness :
  let w := steps scenario_opts two_fetches (world0 scenario_opts) in
  st_display (style (el w)) = display_block /\ in_document (el w) = true.
Proof.
  intros w.
  assert (Hr : reachable scenario_opts w) by (eexists; reflexivity).
  assert (Hd : st_display (style (el w)) = display_block) by reflexivity.
  split; [exact Hd|].
  exact (proj2 (dropdown_is_displayed_in_document scenario_opts w Hr) Hd).
Defined.

(* ===================================================================== *)
(** * After a selection *)
(* ===================================================================== *)

Section AfterSelection.

Lemma ends_in_nul (trigger : jsstring) (L : jsstring -> Prop)
    (kept q : jsstring) :
  no_nul trigger ->
  (forall c, L q -> In c q -> c <> 0%N) ->
  ~ ends_in_trigger trigger L (kept ++ [0%N]) q.
Proof.
  intros Hnul Hq (pre & E & Hb & HL).
  destruct q as [|c q _] using rev_ind.
  - rewrite app_nil_r in E.
    destruct trigger as [|c t _] using rev_ind.
    + rewrite app_nil_r in E. subst pre.
      destruct Hb as [Hb | (pre' & c & Hb & Hc)].
      * destruct kept; discriminate Hb.
      * apply app_inj_tail in Hb as [_ <-]. discriminate Hc.
    + rewrite app_assoc in E. apply app_inj_tail in E as [_ <-].
      apply Hnul. apply in_or_app. right. now left.
  - rewrite !app_assoc in E. apply app_inj_tail in E as [_ <-].
    apply (Hq 0%N HL); [|reflexivity]. apply in_or_app. right. now left.
Qed.

(** Behind a leaf node no trigger is active: the text before the cursor
    ends in the NUL of the leaf, which is no character of a query text. *)
Lemma getMatch_after_leaf (cfg : TriggerConfig) (start : Z)
    (kept : jsstring) :
  no_nul (mentionTrigger cfg) ->
  no_nul (hashtagTrigger cfg) ->
  getMatch {| rp_start := start; rp_text := kept ++ [0%N] |} cfg = None.
Proof.
  intros Hm Ht.
  destruct (getMatch _ cfg) as [r|] eqn:E; [|reflexivity]. exfalso.
  assert (Hs : getMatch {| rp_start := start; rp_text := kept ++ [0%N] |} cfg
               <> None) by congruence.
  apply getMatch_is_Some in Hs as [(q & Hq) | (q & Hq)]; simpl in Hq.
  - revert Hq. apply ends_in_nul; [exact Hm|].
    intros c HL Hin ->.
    destruct (mention_query_chars cfg q 0%N HL Hin) as [H | H];
      discriminate H.
  - revert Hq. apply ends_in_nul; [exact Ht|].
    intros c HL Hin ->.
    pose proof (tag_query_chars q 0%N HL Hin) as H. discriminate H.
Qed.

End AfterSelection.

(** X21: For triggers that hold no pattern metacharacter and no NUL: Enter
    in an active state with a candidate highlighted leaves the plugin
    inactive when [handleKeyDown] returns.  The editor has applied the
    replacement, the caret stands behind the new node, the view update has
    hidden the dropdown and cleared the timer, and no request is made
    however much time passes. *)
Theorem selection_deactivates {DropdownEl SuggestionItem Attrs : Type}
    (opts : Opts DropdownEl SuggestionItem Attrs)
    (w : World DropdownEl Attrs) (attrs : Attrs) (dt : nat) :
  literal_triggers (triggers opts) ->
  no_nul (mentionTrigger (triggers opts)) ->
  no_nul (hashtagTrigger (triggers opts)) ->
  reachable opts w ->
  active (getState w) = true ->
  getCurItemAttrsForSelect opts (content (el w)) = Some attrs ->
  let w' := step opts (EvKeyDown 13) w in
  active (getState w') = false /\
  st_display (style (el w')) = display_none /\
  Timers.pending (timers (js w')) = [] /\
  requests (step opts (EvElapse dt) w') = requests w.
Proof.
  intros _ Hm Ht Hr Ha Hc w'. pose proof (reachable_inv opts w Hr) as Hinv.
  set (tr := {| tr_from := from (range (getState w));
                tr_to := to (range (getState w));
                tr_node_type := type (getState w);
                tr_node_attrs := attrs |}).
  set (sel := replaced_selection tr (view_selection (view w))).
  assert (Hnew : apply opts sel (view_pluginState (view w)) = getNewState).
  { unfold apply. subst sel. unfold replaced_selection.
    cbn [sel_from sel_to sel_rfrom]. rewrite Z.eqb_refl. simpl negb.
    cbv iota. now rewrite (getMatch_after_leaf _ _ _ Hm Ht). }
  set (v := {| view_pluginState := apply opts sel (view_pluginState (view w));
               view_selection := sel;
               view_textDOM :=
                 if active (apply opts sel (view_pluginState (view w)))
                 then view_textDOM (view w) else None;
               view_dispatched := view_dispatched (view w) ++ [tr] |}).
  assert (Hw' : w' = update opts (set_view v w)).
  { subst w'. unfold step, handleKeyDown, select. rewrite Ha, Hc.
    reflexivity. }
  assert (Htv : typed (view_pluginState v)) by apply apply_typed.
  destruct (update_after_apply opts v w Htv Hinv) as (_ & Hs & Hv & Hrq).
  assert (Hn : ~ fetchable opts (getState (set_view v w))).
  { intros (Hact & _). unfold getState in Hact. simpl in Hact.
    rewrite Hnew in Hact. discriminate Hact. }
  assert (Hp : Timers.pending (timers (js w')) = []).
  { rewrite Hw'. destruct Hs as [[_ Hp] | [Hf _]]; [exact Hp|].
    exfalso. apply Hn. unfold getState in *. rewrite Hv in Hf. exact Hf. }
  split; [|split; [|split; [exact Hp|]]].
  - rewrite Hw'. unfold getState. rewrite Hv. simpl. now rewrite Hnew.
  - rewrite Hw', (update_not_fetchable opts (set_view v w) Htv Hn).
    reflexivity.
  - rewrite step_elapse, (elapse_none _ dt _ Hp). simpl.
    rewrite Hw'. exact Hrq.
Qed.

Lemma selection_deactivates_witness :
  let opts : Opts (option (list string)) string string :=
    {| triggers := defaultTriggers;
       createDropdownEl := None;
       showDropdownEl := fun _ suggestionItems => suggestionItems;
       hideDropdownEl := fun dropdownEl => dropdownEl;
       goNext := fun dropdownEl => dropdownEl;
       goPrev := fun dropdownEl => dropdownEl;
       getCurItemAttrsForSelect :=
         fun dropdownEl =>
           match dropdownEl with
           | Some (item :: _) => Some item
           | _ => None
           end;
       destroy := fun dropdownEl => dropdownEl;
       suggestionTextClass := "prosemirror-suggestion";
       delay := 500 |} in
  let w := steps opts
             [EvTransaction (caret_after "hi @al") (Some span_rect);
              EvElapse 500;
              EvResolve 0 (Some ["alice"%string])]
             (world0 opts) in
  let w' := step opts (EvKeyDown 13) w in
  st_display (style (el w)) = display_block /\
  active (getState w') = false /\
  st_display (style (el w')) = display_none.
Proof.
  intros opts w w'. split; [reflexivity|].
  assert (H0 : literal_triggers (triggers opts))
    by (split; repeat constructor).
  assert (Hm : no_nul (mentionTrigger (triggers opts)))
    by (intros [H | []]; discriminate H).
  assert (Ht : no_nul (hashtagTrigger (triggers opts)))
    by (intros [H | []]; discriminate H).
  assert (Hr : reachable opts w) by (eexists; reflexivity).
  destruct (selection_deactivates opts w "alice"%string 0 H0 Hm Ht Hr
              eq_refl eq_refl) as (H1 & H2 & _).
  split; [exact H1 | exact H2].
Defined.
